(** * NCAA football predictions dashboard: edge bands, opportunities, win rate

    A shallow embedding of the data-shaping code of the web dashboard:

    - [web-dashboard/src/app/api/predictions/route.ts]: the conversion of
      the two sheet ranges into arrays of records ([Route]);
    - [web-dashboard/src/app/page.tsx]: [processPredictions] and
      [calculatePerformance] ([Page]);
    - the themed / tabbed dashboard variants, whose [bettingOpps] pipeline
      ends with a minimum-edge filter ([Dashboard]).

    JavaScript numbers are IEEE 754 binary64 values.  They are modelled by
    the [spec_float] type of the standard library with [prec = 53] and
    [emax = 1024]; comparison, subtraction, multiplication and division are
    the library's executable specifications of the IEEE operations.
    Strings are byte strings holding the UTF-8 encoding of the JavaScript
    string; rows of a sheet are finite maps from header text to cell text. *)

From Stdlib Require Import ZArith Lia SpecFloat Ascii.
From stdpp Require Import gmap strings list sorting.

Set Default Proof Using "Type".
Local Open Scope Z_scope.

(** ** Numbers *)

Module Number.

Definition prec : Z := 53.
Definition emax : Z := 1024.

Abbreviation number := spec_float.

Definition NaN : number := S754_nan.
Definition zero : number := S754_zero false.
Definition Infinity : number := S754_infinity false.

(** The Number value of a mathematical integer. *)
Definition of_Z (n : Z) : number := binary_normalize prec emax n 0 false.
Definition of_nat (n : nat) : number := of_Z (Z.of_nat n).

(** [x < y], [x > y], [x >= y], [x <= y]: false as soon as an operand is NaN. *)
Definition lt (x y : number) : bool := SFltb x y.
Definition gt (x y : number) : bool := SFltb y x.
Definition ge (x y : number) : bool := SFleb y x.
Definition le (x y : number) : bool := SFleb x y.
(** [x === y] on numbers. *)
Definition eq (x y : number) : bool := SFeqb x y.

Definition sub (x y : number) : number := SFsub prec emax x y.
Definition mul (x y : number) : number := SFmul prec emax x y.
Definition div (x y : number) : number := SFdiv prec emax x y.

Definition isNaN (x : number) : bool :=
  match x with S754_nan => true | _ => false end.

(** ToBoolean on a number: [+0], [-0] and [NaN] are falsy. *)
Definition truthy (x : number) : bool :=
  match x with
  | S754_zero _ | S754_nan => false
  | _ => true
  end.

(** [x || 0]. *)
Definition or_zero (x : number) : number := if truthy x then x else zero.

(** The same Number value (as [Object.is] compares numbers). *)
Definition same (x y : number) : bool :=
  match x, y with
  | S754_zero a, S754_zero b => Bool.eqb a b
  | S754_infinity a, S754_infinity b => Bool.eqb a b
  | S754_nan, S754_nan => true
  | S754_finite a m e, S754_finite b m' e' =>
      Bool.eqb a b && (m =? m')%positive && (e =? e')
  | _, _ => false
  end.

(** A finite value is well formed when its mantissa and exponent are the
    canonical binary64 ones. *)
Definition valid (x : number) : bool := valid_binary prec emax x.

(** Neither NaN nor an infinity. *)
Definition finite (x : number) : Prop :=
  match x with
  | S754_zero _ | S754_finite _ _ _ => True
  | _ => False
  end.

(** The magnitude [m * 2^e] counted in units of [2^-1074], the spacing of
    the subnormal numbers: every finite binary64 value is an integer
    there. *)
Definition mag (m : positive) (e : Z) : Z := Z.pos m * 2 ^ (e + 1074).

Definition units (x : number) : Z :=
  match x with
  | S754_finite s m e => cond_Zopp s (mag m e)
  | _ => 0
  end.

(** The number of binary digits of a mantissa. *)
Definition dig (m : Z) : Z := Zdigits2 m.

(** Nothing has been shifted out of a mantissa so far. *)
Definition exact (mrs : shr_record) : Prop :=
  shr_r mrs = false ∧ shr_s mrs = false.

(** The mantissa [mx] at the exponent [ex] has enough digits for
    [binary_round_aux] to round it. *)
Definition roundable (mx ex : Z) : Prop := ex ≤ fexp prec emax (dig mx + ex).

(** What [binary_round_aux] returns for the rounded mantissa [m1] at the
    exponent [E]: zero, an overflow to infinity, or a canonical finite
    value of the same magnitude. *)
Definition rounded (sx : bool) (m1 E : Z) (r : number) : Prop :=
  (m1 = 0 ∧ r = S754_zero sx)
  ∨ (0 < m1 ∧ r = S754_infinity sx ∧ 2 ^ 2098 ≤ m1 * 2 ^ (E + 1074))
  ∨ (0 < m1 ∧ ∃ m2 e2, r = S754_finite sx m2 e2
       ∧ bounded prec emax m2 e2 = true
       ∧ Z.pos m2 * 2 ^ (e2 + 1074) = m1 * 2 ^ (E + 1074)).

End Number.

Export Number(number).

(** ** Strings and the values of record fields *)

(** A field read [obj.k] yields the cell text, or [undefined] when the
    record has no property [k]: the option type of the map lookup. *)

(** ToBoolean on a field value: [undefined] and the empty string are falsy. *)
Definition truthy_str (v : option string) : bool :=
  match v with
  | Some s => bool_decide (s ≠ "")
  | None => false
  end.

(** [v || ''] on a field value. *)
Definition or_empty (v : option string) : string :=
  match v with
  | Some s => if truthy_str v then s else ""
  | None => ""
  end.

(** ToString on a field value, as a template literal or [parseFloat]
    applies it. *)
Definition to_string (v : option string) : string :=
  match v with
  | Some s => s
  | None => "undefined"
  end.

(** [v !== lit] for a string literal [lit]. *)
Definition strict_ne (v : option string) (lit : string) : bool :=
  bool_decide (v ≠ Some lit).

(** [v === lit] for a string literal [lit]. *)
Definition strict_eq (v : option string) (lit : string) : bool :=
  bool_decide (v = Some lit).

(** ** The built-in conversions between strings and numbers *)

Module Builtin.
Import Number.

Definition code (c : ascii) : N := N_of_ascii c.

(** White space and line terminators of one byte. *)
Definition is_space1 (a : N) : bool :=
  ((9 <=? a) && (a <=? 13) || (a =? 32))%N.

(** U+00A0 in UTF-8. *)
Definition is_space2 (a b : N) : bool :=
  ((a =? 194) && (b =? 160))%N.

(** U+FEFF, U+1680, U+2000..U+200A, U+2028, U+2029, U+202F, U+205F and
    U+3000 in UTF-8. *)
Definition is_space3 (a b c : N) : bool :=
  ((a =? 239) && (b =? 187) && (c =? 191)
   || (a =? 225) && (b =? 154) && (c =? 128)
   || (a =? 226) && (b =? 128)
      && ((128 <=? c) && (c <=? 138) || (c =? 168) || (c =? 169) || (c =? 175))
   || (a =? 226) && (b =? 129) && (c =? 159)
   || (a =? 227) && (b =? 128) && (c =? 128))%N.

(** TrimString(s, start). *)
Fixpoint trim_start (s : string) : string :=
  match s with
  | String a r1 =>
      if is_space1 (code a) then trim_start r1
      else
        match r1 with
        | String b r2 =>
            if is_space2 (code a) (code b) then trim_start r2
            else
              match r2 with
              | String c r3 =>
                  if is_space3 (code a) (code b) (code c) then trim_start r3 else s
              | EmptyString => s
              end
        | EmptyString => s
        end
  | EmptyString => s
  end.

(** DecimalDigits, read greedily: the value of [acc] followed by the
    digits read, the number of digits read, and the rest of the input. *)
Fixpoint decimal_digits (s : string) (acc : Z) (count : Z) : Z * Z * string :=
  match s with
  | String c r =>
      match Ascii.is_nat c with
      | Some d => decimal_digits r (10 * acc + Z.of_nat d) (count + 1)
      | None => (acc, count, s)
      end
  | EmptyString => (acc, count, s)
  end.

(** ExponentPart, when the input starts with a complete one: its value. *)
Definition exponent_part (s : string) : Z :=
  match s with
  | String c r =>
      if bool_decide (c = "e"%char ∨ c = "E"%char) then
        let '(neg, r') :=
          match r with
          | String "-"%char r' => (true, r')
          | String "+"%char r' => (false, r')
          | _ => (false, r)
          end in
        let '(v, count, _) := decimal_digits r' 0 0 in
        if count =? 0 then 0 else cond_Zopp neg v
      else 0
  | EmptyString => 0
  end.

(** The Number value of [m * 10^e] for a natural number [m], with the
    sign [neg]: the quotient or product is rounded once, to nearest,
    ties to even. *)
Definition of_decimal (neg : bool) (m e : Z) : number :=
  match m with
  | Z.pos p =>
      if 0 <=? e then binary_normalize prec emax (cond_Zopp neg (m * 10 ^ e)) 0 false
      else SFdiv prec emax (S754_finite neg p 0)
                           (S754_finite false (Z.to_pos (10 ^ (- e))) 0)
  | _ => S754_zero neg
  end.

Fixpoint starts_with (p s : string) : bool :=
  match p, s with
  | EmptyString, _ => true
  | String a p', String b s' => bool_decide (a = b) && starts_with p' s'
  | String _ _, EmptyString => false
  end.

(** [parseFloat(s)]: the longest prefix of the trimmed input that is a
    StrDecimalLiteral, or NaN when there is none.  The decimal value is
    rounded exactly, as the engines do (the standard allows an
    implementation to round a literal of more than 20 significant digits
    at the 20th digit first). *)
Definition parseFloat (s : string) : number :=
  let t := trim_start s in
  let '(neg, t) :=
    match t with
    | String "-"%char r => (true, r)
    | String "+"%char r => (false, r)
    | _ => (false, t)
    end in
  if starts_with "Infinity" t then S754_infinity neg
  else
    let '(ip, icount, r1) := decimal_digits t 0 0 in
    let '(m, fcount, r2) :=
      match r1 with
      | String "."%char r => decimal_digits r ip 0
      | _ => (ip, 0, r1)
      end in
    if (icount =? 0) && (fcount =? 0) then NaN
    else of_decimal neg m (exponent_part r2 - fcount).

(** The number of decimal digits of a positive integer. *)
Fixpoint digits10_aux (fuel : nat) (z : Z) : Z :=
  match fuel with
  | O => 1
  | S fuel' => if z <? 10 then 1 else 1 + digits10_aux fuel' (z / 10)
  end.

Definition digits10 (z : Z) : Z := digits10_aux (Z.to_nat (Z.log2 z)) z.

(** A positive finite value as a fraction of two positive integers. *)
Definition fraction (m : positive) (e : Z) : Z * Z :=
  if 0 <=? e then (Z.pos m * 2 ^ e, 1) else (Z.pos m, 2 ^ (- e)).

(** The [n] with [10^(n-1) <= num/den < 10^n]. *)
Definition decimal_exponent (num den : Z) : Z :=
  if den <=? num then digits10 (num / den)
  else 1 - digits10 ((den - 1) / num).

(** [floor (num/den * 10^j)]. *)
Definition scaled_floor (num den j : Z) : Z :=
  if 0 <=? j then (num * 10 ^ j) / den else num / (den * 10 ^ (- j)).

(** Is [s * 10^j] at most as far from [num/den] as [(s+1) * 10^j] is?
    [0]: nearer, [1]: as far, [2]: farther.  With [r] the remainder of the
    scaled division this compares [2 r] with the divisor. *)
Definition nearer_low (num den j : Z) : comparison :=
  if 0 <=? j then (2 * ((num * 10 ^ j) mod den)) ?= den
  else (2 * (num mod (den * 10 ^ (- j)))) ?= den * 10 ^ (- j).

(** The shortest digit string: the least [k <= 17] for which some [s] of
    [k] digits has [s * 10^(n-k)] read back as [x], and among the two
    candidates the nearer one (the even one on a tie), the choice the
    standard recommends and the engines make. *)
Fixpoint shortest (fuel : nat) (x : number) (num den n k : Z) : Z * Z :=
  let lo := scaled_floor num den (k - n) in
  let hi := lo + 1 in
  let ok_lo := same (of_decimal false lo (n - k)) x in
  let ok_hi := same (of_decimal false hi (n - k)) x in
  let pick_lo :=
    match nearer_low num den (k - n) with
    | Lt => true
    | Eq => Z.even lo
    | Gt => false
    end in
  if ok_lo && (negb ok_hi || pick_lo) then (lo, k)
  else if ok_hi then (hi, k)
  else
    match fuel with
    | O => (lo, k)
    | S fuel' => shortest fuel' x num den n (k + 1)
    end.

Fixpoint repeat_zero (n : nat) : string :=
  match n with
  | O => ""
  | S n' => String "0"%char (repeat_zero n')
  end.

Fixpoint split_at (n : nat) (s : string) : string * string :=
  match n, s with
  | S n', String c r => let '(a, b) := split_at n' r in (String c a, b)
  | _, _ => ("", s)
  end.

(** The decimal digits of a natural number. *)
Fixpoint digits_go (fuel : nat) (z : Z) (acc : string) : string :=
  let acc' := String (ascii_of_N (48 + Z.to_N (z mod 10))) acc in
  match fuel with
  | O => acc'
  | S fuel' => if z <? 10 then acc' else digits_go fuel' (z / 10) acc'
  end.

Definition digits_of (z : Z) : string := digits_go (Z.to_nat (Z.log2 z)) z "".

(** Number::toString(x, 10) for a positive finite [x = m * 2^e]. *)
Definition toString_pos (m : positive) (e : Z) : string :=
  let '(num, den) := fraction m e in
  let n0 := decimal_exponent num den in
  let '(s, k) := shortest 16 (S754_finite false m e) num den n0 1 in
  (* [hi] may have reached [10^k]: one digit more in front *)
  let '(s, n) := if s =? 10 ^ k then (s / 10, n0 + 1) else (s, n0) in
  let ds := digits_of s in
  if (-5 <=? n) && (n <=? 21) then
    if k <=? n then ds +:+ repeat_zero (Z.to_nat (n - k))
    else if 0 <? n then
      let '(a, b) := split_at (Z.to_nat n) ds in a +:+ "." +:+ b
    else "0." +:+ repeat_zero (Z.to_nat (- n)) +:+ ds
  else
    let ex := n - 1 in
    let sign := if 0 <=? ex then "+" else "-" in
    let '(a, b) := split_at 1 ds in
    (if k =? 1 then a else a +:+ "." +:+ b)
      +:+ "e" +:+ sign +:+ digits_of (Z.abs ex).

(** Number::toString(x, 10), as a template literal applies it. *)
Definition toString (x : number) : string :=
  match x with
  | S754_nan => "NaN"
  | S754_zero _ => "0"
  | S754_infinity s => if s then "-Infinity" else "Infinity"
  | S754_finite s m e => (if s then "-" else "") +:+ toString_pos m e
  end.

End Builtin.

Export Builtin(parseFloat).

(** ** Array.prototype.sort *)

(** [arr.sort(cmp)] is a stable sort (ECMAScript 2019 and later): of two
    elements the later one moves in front only if the comparator orders it
    first, and a comparator result NaN counts as zero.  For a consistent
    comparator this fixes the result, whatever algorithm the engine runs;
    the model is the insertion sort that inserts the elements from the
    right, each one in front of the first element that need not precede
    it. *)
Section ArraySort.
Context {A : Type} (cmp : A → A → number).

(** [y] must come before [x]: [cmp(x, y) > 0]. *)
Definition after (x y : A) : bool := Number.gt (cmp x y) Number.zero.

Fixpoint insert (x : A) (l : list A) : list A :=
  match l with
  | [] => [x]
  | y :: l' => if after x y then y :: insert x l' else x :: y :: l'
  end.

Definition sort (l : list A) : list A := foldr insert [] l.
End ArraySort.

(** ** route.ts: sheet ranges to records *)

Module Route.

Abbreviation SheetRow := (gmap string string).

(** [obj[header] = v] on an object created by [{}], for a string [v]: the
    assignment creates or overwrites the property, except for the key
    ["__proto__"], where it reaches the accessor inherited from
    [Object.prototype], which ignores a value that is not an object. *)
Definition assign (header v : string) (obj : SheetRow) : SheetRow :=
  if bool_decide (header = "__proto__") then obj else <[header := v]> obj.

(** [headers.forEach((header, index) => { obj[header] = row[index] || '' })],
    from [index] on. *)
Fixpoint forEach (headers : list string) (index : nat)
    (row : list string) (obj : SheetRow) : SheetRow :=
  match headers with
  | [] => obj
  | header :: rest =>
      forEach rest (S index) row (assign header (or_empty (row !! index)) obj)
  end.

Definition toRecord (headers row : list string) : SheetRow :=
  forEach headers 0 row ∅.

(** [data.length > h + 1 ? data.slice(h + 1).map(row => ...) : []] with
    [headers = data[h]]. *)
Definition structured (h : nat) (data : list (list string)) : list SheetRow :=
  if bool_decide (h + 1 < length data)%nat
  then toRecord (default [] (data !! h)) <$> drop (h + 1) data
  else [].

(** The header row of the predictions range is its first row. *)
Definition predictions (predictionsData : list (list string)) : list SheetRow :=
  structured 0 predictionsData.

(** The header row of the cover analysis range is its fourth row. *)
Definition coverAnalysis (coverData : list (list string)) : list SheetRow :=
  structured 3 coverData.

End Route.

Export Route(SheetRow).

(** The six edge bands, from the highest. *)
Definition bands : list string := ["12+"; "9-12"; "7-9"; "5-7"; "2-5"; "0-2"].

(** Has the record a usable Vegas line?
    [pred.Line && pred.Line !== 'N/A' && pred.Line !== 'No Line Available'] *)
Definition has_line (pred : SheetRow) : bool :=
  truthy_str (pred !! "Line")
  && strict_ne (pred !! "Line") "N/A"
  && strict_ne (pred !! "Line") "No Line Available".

(** [parseFloat(pred[k]) || 0] *)
Definition parse_field (pred : SheetRow) (k : string) : number :=
  Number.or_zero (parseFloat (to_string (pred !! k))).

(** ** page.tsx

    An earlier copy of this page differs from it in the confidence labels
    only. *)

Module Page.
Import Number Builtin.

Record BettingOpportunity := {
  matchup : string;
  favorite : string;
  underdog : string;
  ourLine : number;
  vegasLine : number;
  edge : number;
  betRecommendation : string;
  confidence : string;
  edgeBand : string;
}.

(** Array lengths are kept as natural numbers; they become binary64
    values where the code computes with them. *)
Record PerformanceMetrics := {
  totalBets : nat;
  wins : nat;
  losses : nat;
  winRate : number;
  currentWeekOpportunities : nat;
}.

(** The filter of [processPredictions]. *)
Definition valid_pred (pred : SheetRow) : bool :=
  has_line pred
  && truthy_str (pred !! "Edge")
  && negb (isNaN (parseFloat (to_string (pred !! "Edge")))).

(** The bet recommendation of [processPredictions]. *)
Definition betRec (pred : SheetRow) (edge ourLine vegasLine : number) : string :=
  if ge edge (of_Z 2) then
    if gt ourLine vegasLine
    then "Take " +:+ to_string (pred !! "Favorite") +:+ " -" +:+ toString vegasLine
    else "Take " +:+ to_string (pred !! "Underdog") +:+ " +" +:+ toString vegasLine
  else "Below threshold".

(** The edge band classification of [processPredictions]: confidence
    label and band. *)
Definition classify (edge : number) : string * string :=
  if ge edge (of_Z 12) then ("Elite (58.5%)", "12+")
  else if ge edge (of_Z 9) then ("Strong (70.6%)", "9-12")
  else if ge edge (of_Z 7) then ("Good (66.7%)", "7-9")
  else if ge edge (of_Z 5) then ("Weak (46.2%)", "5-7")
  else if ge edge (of_Z 2) then ("Fade (35.7%)", "2-5")
  else ("Fade (46.7%)", "0-2").

(** The callback of [map] in [processPredictions]. *)
Definition toOpportunity (pred : SheetRow) : BettingOpportunity :=
  let edge := parse_field pred "Edge" in
  let ourLine := parse_field pred "Predicted Difference" in
  let vegasLine := parse_field pred "Line" in
  {| matchup := or_empty (pred !! "Matchup");
     favorite := or_empty (pred !! "Favorite");
     underdog := or_empty (pred !! "Underdog");
     ourLine := ourLine;
     vegasLine := vegasLine;
     edge := edge;
     betRecommendation := betRec pred edge ourLine vegasLine;
     confidence := fst (classify edge);
     edgeBand := snd (classify edge) |}.

(** The comparator [(a, b) => b.edge - a.edge]. *)
Definition by_edge_desc (a b : BettingOpportunity) : number :=
  sub (edge b) (edge a).

Definition processPredictions (predictions : list SheetRow) : list BettingOpportunity :=
  match predictions with
  | [] => []
  | _ => sort by_edge_desc (toOpportunity <$> filter (λ pred, valid_pred pred) predictions)
  end.

Definition is_result (lit : string) (bet : SheetRow) : bool :=
  strict_eq (bet !! "Result") lit.

Definition calculatePerformance (coverAnalysis : list SheetRow) (currentOpps : nat)
    : PerformanceMetrics :=
  match coverAnalysis with
  | [] =>
      {| totalBets := 0; wins := 0; losses := 0; winRate := zero;
         currentWeekOpportunities := currentOpps |}
  | _ =>
      let validBets :=
        filter (λ bet, is_result "WIN" bet || is_result "LOSS" bet) coverAnalysis in
      let wins := length (filter (λ bet, is_result "WIN" bet) validBets) in
      let losses := length (filter (λ bet, is_result "LOSS" bet) validBets) in
      let winRate :=
        if gt (of_nat (length validBets)) zero
        then mul (div (of_nat wins) (of_nat (length validBets))) (of_Z 100)
        else zero in
      {| totalBets := length validBets; wins := wins; losses := losses;
         winRate := winRate; currentWeekOpportunities := currentOpps |}
  end.

End Page.

(** ** The themed and the tabbed dashboard *)

Module Dashboard.
Import Number Builtin.

(** The two variants share their pipeline; they differ in the labels of the
    bands and in where [minEdge] comes from (a slider with default [2.0]
    in the themed variant, the constant [2.0] in the tabbed one). *)
Variant variant := Themed | Tabbed.

(** [{...pred, betRec, betType, edge, confidence, vegasLine, edgeBand,
    bandEmoji}]: the cells of the record and the derived fields, which
    take precedence over cells of the same name. *)
Record Opportunity := {
  pred : SheetRow;
  betRec : string;
  betType : string;
  edge : number;
  confidence : string;
  vegasLine : number;
  edgeBand : string;
  bandEmoji : string;
}.

(** Recommendation and bet type; both stay empty below [minEdge]. *)
Definition recommend (minEdge : number) (pred : SheetRow)
    (edge predDiff vegasLine : number) : string * string :=
  if ge edge minEdge then
    if gt predDiff vegasLine
    then ("Take " +:+ to_string (pred !! "Favorite") +:+ " -" +:+ toString vegasLine,
          "Favorite")
    else ("Take " +:+ to_string (pred !! "Underdog") +:+ " +" +:+ toString vegasLine,
          "Underdog")
  else ("", "").

(** Band, emoji and confidence label, tested from the lowest band. *)
Definition classify (v : variant) (edge : number) : string * string * string :=
  if lt edge (of_Z 2) then
    ("0-2", "🔴", match v with Themed => "Avoid (40%)" | Tabbed => "Fade (33.3%)" end)
  else if lt edge (of_Z 5) then
    ("2-5", "🟡", match v with Themed => "Weak (37%)" | Tabbed => "Fade (33.3%)" end)
  else if lt edge (of_Z 7) then
    ("5-7", "🟢", match v with Themed => "Good (75%)" | Tabbed => "Good (66.7%)" end)
  else if lt edge (of_Z 9) then
    ("7-9", "🔥", match v with Themed => "Excellent (100%)" | Tabbed => "Strong (66.7%)" end)
  else if lt edge (of_Z 12) then
    ("9-12", "💎", match v with Themed => "Strong (60%)" | Tabbed => "Strong (66.7%)" end)
  else
    ("12+", "👑", match v with Themed => "Elite (64%)" | Tabbed => "Elite (71.4%)" end).

(** The callback of [map]. *)
Definition toOpportunity (v : variant) (minEdge : number) (p : SheetRow) : Opportunity :=
  let edge := parse_field p "Edge" in
  let predDiff := parse_field p "Predicted Difference" in
  let vegasLine := parse_field p "Line" in
  let rec := recommend minEdge p edge predDiff vegasLine in
  let cls := classify v edge in
  {| pred := p;
     betRec := fst rec;
     betType := snd rec;
     edge := edge;
     confidence := snd cls;
     vegasLine := vegasLine;
     edgeBand := fst (fst cls);
     bandEmoji := snd (fst cls) |}.

(** The comparator [(a, b) => b.edge - a.edge]. *)
Definition by_edge_desc (a b : Opportunity) : number := sub (edge b) (edge a).

Definition bettingOpps (v : variant) (minEdge : number) (predictions : list SheetRow)
    : list Opportunity :=
  sort by_edge_desc
    (filter (λ bet, ge (edge bet) minEdge)
       (toOpportunity v minEdge <$> filter (λ p, has_line p) predictions)).

(** The default of the slider, and the constant of the tabbed variant. *)
Definition minEdge_default : number := of_Z 2.

Record Performance := {
  totalBets : nat;
  wins : nat;
  winRate : number;
}.

Definition is_result (lit : string) (game : SheetRow) : bool :=
  strict_eq (game !! "Result") lit.

Definition performance (coverAnalysis : list SheetRow) : Performance :=
  let validCoverGames :=
    filter (λ game, is_result "WIN" game || is_result "LOSS" game) coverAnalysis in
  let totalBets := length validCoverGames in
  let wins := length (filter (λ game, is_result "WIN" game) validCoverGames) in
  {| totalBets := totalBets;
     wins := wins;
     winRate :=
       if gt (of_nat totalBets) zero
       then mul (div (of_nat wins) (of_nat totalBets)) (of_Z 100)
       else zero |}.

End Dashboard.

(** ** The vocabulary of the specification *)

Module Spec.
Import Number.

(** The half-open interval of a band: its lower bound, and its upper
    bound when it has one. *)
Definition band_bounds (b : string) : option (Z * option Z) :=
  if decide (b = "12+") then Some (12, None)
  else if decide (b = "9-12") then Some (9, Some 12)
  else if decide (b = "7-9") then Some (7, Some 9)
  else if decide (b = "5-7") then Some (5, Some 7)
  else if decide (b = "2-5") then Some (2, Some 5)
  else if decide (b = "0-2") then Some (0, Some 2)
  else None.

(** [lo <= e < hi] *)
Definition in_band (b : string) (e : number) : Prop :=
  match band_bounds b with
  | Some (lo, hi) =>
      ge e (of_Z lo) = true
      ∧ match hi with Some h => lt e (of_Z h) = true | None => True end
  | None => False
  end.

(** A sort key that is a well-formed number and not NaN. *)
Definition keyed {A : Type} (key : A → number) (x : A) : Prop :=
  valid (key x) = true ∧ isNaN (key x) = false.

(** Sorted by key, descending: every element is at least every later one. *)
Definition descending {A : Type} (key : A → number) (l : list A) : Prop :=
  StronglySorted (λ a b, ge (key a) (key b) = true) l.

(** The elements of equal key come in [out] in the order they have in [l]. *)
Definition ties_in_order {A : Type} (key : A → number) (l out : list A) : Prop :=
  ∀ e : number,
    filter (λ a, eq (key a) e = true) out = filter (λ a, eq (key a) e = true) l.

(** The Line field is the empty value or one of the two markers. *)
Definition no_line (pred : SheetRow) : Prop :=
  pred !! "Line" = None ∨ pred !! "Line" = Some ""
  ∨ pred !! "Line" = Some "N/A" ∨ pred !! "Line" = Some "No Line Available".

(** The number of records whose Result field is exactly [lit]. *)
Definition count_result (lit : string) (l : list SheetRow) : nat :=
  length (filter (λ r : SheetRow, r !! "Result" = Some lit) l).

(** The record maps each header text to the cell at the same index. *)
Definition maps_same_index (headers row : list string) (rec : SheetRow) : Prop :=
  ∀ (i : nat) (h : string),
    headers !! i = Some h → rec !! h = Some (or_empty (row !! i)).

(** [i] is the index of the last occurrence of [h] among the headers. *)
Definition last_index (headers : list string) (i : nat) (h : string) : Prop :=
  headers !! i = Some h ∧ ∀ j : nat, (i < j)%nat → headers !! j ≠ Some h.

(** The string of a recommendation for [team] at the line [line]. *)
Definition take (team : option string) (sign : string) (line : number) : string :=
  "Take " +:+ to_string team +:+ " " +:+ sign +:+ Builtin.toString line.

End Spec.

(** ** Sample records *)

(** The prediction record of the end-to-end scenario. *)
Definition sample : SheetRow :=
  list_to_map [("Matchup", "A vs B"); ("Favorite", "A"); ("Underdog", "B");
               ("Predicted Difference", "7"); ("Line", "3"); ("Edge", "4")].

(** An outcome record with the given result tag. *)
Definition result (r : string) : SheetRow := {["Result" := r]}.


(** ** page.tsx: the band tables and the sections of the page *)

Module PageView.
Import Number Builtin.

(** The value of the decimal literal [m * 10^e]. *)
Definition literal (m e : Z) : number := of_decimal false m e.

Definition getEdgeBandStyle (edgeBand : string) : string :=
  if decide (edgeBand = "12+") then "bg-purple-100 border-purple-500 text-purple-800"
  else if decide (edgeBand = "9-12") then "bg-blue-100 border-blue-500 text-blue-800"
  else if decide (edgeBand = "7-9") then "bg-red-100 border-red-500 text-red-800"
  else if decide (edgeBand = "5-7") then "bg-green-100 border-green-500 text-green-800"
  else if decide (edgeBand = "2-5") then "bg-yellow-100 border-yellow-500 text-yellow-800"
  else "bg-gray-100 border-gray-500 text-gray-800".

Definition getEdgeBandEmoji (edgeBand : string) : string :=
  if decide (edgeBand = "12+") then "👑"
  else if decide (edgeBand = "9-12") then "💎"
  else if decide (edgeBand = "7-9") then "🟢"
  else if decide (edgeBand = "5-7") then "🟡"
  else if decide (edgeBand = "2-5") then "🔴"
  else if decide (edgeBand = "0-2") then "🔴"
  else "⚫".

(** The names that every object literal inherits from [Object.prototype];
    a read of one of them on the table below yields the inherited member,
    which is truthy. *)
Definition inherited_names : list string :=
  ["constructor"; "hasOwnProperty"; "isPrototypeOf"; "propertyIsEnumerable";
   "toLocaleString"; "toString"; "valueOf"; "__defineGetter__";
   "__defineSetter__"; "__lookupGetter__"; "__lookupSetter__"; "__proto__"].

(** What [getEdgeBandPerformance] returns: an entry of the table (or the
    default entry), or a member inherited from [Object.prototype]. *)
Variant performance :=
  | Entry (record : string) (percentage : number)
  | Inherited (name : string).

(** [performances[edgeBand] || { record: '0-0', percentage: 0 }] *)
Definition getEdgeBandPerformance (edgeBand : string) : performance :=
  if decide (edgeBand = "12+") then Entry "24-17" (literal 585 (-1))
  else if decide (edgeBand = "9-12") then Entry "12-5" (literal 706 (-1))
  else if decide (edgeBand = "7-9") then Entry "4-2" (literal 667 (-1))
  else if decide (edgeBand = "5-7") then Entry "6-7" (literal 462 (-1))
  else if decide (edgeBand = "2-5") then Entry "10-18" (literal 357 (-1))
  else if decide (edgeBand = "0-2") then Entry "7-8" (literal 467 (-1))
  else if decide (edgeBand ∈ inherited_names) then Inherited edgeBand
  else Entry "0-0" zero.

(** [opportunities.filter(opp => opp.edgeBand === band)] *)
Definition inBand (band : string) (opportunities : list Page.BettingOpportunity)
    : list Page.BettingOpportunity :=
  filter (λ opp, Page.edgeBand opp = band) opportunities.

(** The object [groupedOpportunities], as the list of its six properties in
    the order they are written. *)
Definition groupedOpportunities (opportunities : list Page.BettingOpportunity)
    : list (string * list Page.BettingOpportunity) :=
  [("12+", inBand "12+" opportunities);
   ("9-12", inBand "9-12" opportunities);
   ("7-9", inBand "7-9" opportunities);
   ("5-7", inBand "5-7" opportunities);
   ("2-5", inBand "2-5" opportunities);
   ("0-2", inBand "0-2" opportunities)].

(** [opportunities.filter(opp => opp.edge >= 5)] *)
Definition highEdgeOpps (opportunities : list Page.BettingOpportunity)
    : list Page.BettingOpportunity :=
  filter (λ opp, ge (Page.edge opp) (of_Z 5)) opportunities.

(** [bandOpps.filter(opp => opp.edge >= 2.5).length] *)
Definition valueBets (bandOpps : list Page.BettingOpportunity) : nat :=
  length (filter (λ opp, ge (Page.edge opp) (literal 25 (-1))) bandOpps).

(** The sections of the page: of each band with at least one opportunity,
    the band, its opportunities and the number of its value bets. *)
Definition bandSections (opportunities : list Page.BettingOpportunity)
    : list (string * list Page.BettingOpportunity * nat) :=
  omap (λ '(band, bandOpps),
          match bandOpps with
          | [] => None
          | _ => Some (band, bandOpps, valueBets bandOpps)
          end)
       (groupedOpportunities opportunities).

(** The line under the matchup of an opportunity in a section. *)
Definition shownRecommendation (opp : Page.BettingOpportunity) : string :=
  if ge (Page.edge opp) (literal 25 (-1))
  then "🎯 " +:+ Page.betRecommendation opp
  else "No betting value (edge too small)".

(** The line under the matchup in the list of all opportunities of the
    earlier copy of the page:
    [opp.edge >= 2 ? opp.betRecommendation : 'Below betting threshold']. *)
Definition listedRecommendation (opp : Page.BettingOpportunity) : string :=
  if ge (Page.edge opp) (of_Z 2)
  then Page.betRecommendation opp
  else "Below betting threshold".

(** The state [expandedBands] when the page is mounted. *)
Definition expandedBands_initial : gmap string bool :=
  list_to_map [("12+", true); ("9-12", true); ("7-9", true);
               ("5-7", false); ("2-5", false); ("0-2", false)].

(** The truth value of [expandedBands[band]]: the property of the state,
    or else the member inherited from [Object.prototype], or else
    [undefined]. *)
Definition isExpanded (expandedBands : gmap string bool) (band : string) : bool :=
  match expandedBands !! band with
  | Some b => b
  | None => bool_decide (band ∈ inherited_names)
  end.

(** [prev => ({...prev, [band]: !prev[band]})] *)
Definition toggleBand (band : string) (prev : gmap string bool) : gmap string bool :=
  <[band := negb (isExpanded prev band)]> prev.

End PageView.

(** ** The tabbed dashboard: predictions by band and by schedule *)

Module Tabbed.
Import Number Builtin.

(** [const minEdge = 2.0] *)
Definition minEdge : number := of_Z 2.

Definition bettingOpps (predictions : list SheetRow) : list Dashboard.Opportunity :=
  Dashboard.bettingOpps Dashboard.Tabbed minEdge predictions.

(** A game of a band group: an opportunity, or a prediction below the
    threshold, which has no [betType]. *)
Record Game := {
  pred : SheetRow;
  edge : number;
  edgeBand : string;
  bandEmoji : string;
  betRec : string;
  confidence : string;
  vegasLine : number;
  betType : option string;
}.

Definition ofOpportunity (bet : Dashboard.Opportunity) : Game :=
  {| pred := Dashboard.pred bet;
     edge := Dashboard.edge bet;
     edgeBand := Dashboard.edgeBand bet;
     bandEmoji := Dashboard.bandEmoji bet;
     betRec := Dashboard.betRec bet;
     confidence := Dashboard.confidence bet;
     vegasLine := Dashboard.vegasLine bet;
     betType := Some (Dashboard.betType bet) |}.

(** [edge < 2 ? '0-2' : edge < 5 ? '2-5' : ... : '12+'] *)
Definition edgeBandOf (edge : number) : string :=
  if lt edge (of_Z 2) then "0-2"
  else if lt edge (of_Z 5) then "2-5"
  else if lt edge (of_Z 7) then "5-7"
  else if lt edge (of_Z 9) then "7-9"
  else if lt edge (of_Z 12) then "9-12"
  else "12+".

(** [edgeBand === '0-2' ? '🔴' : edgeBand === '2-5' ? '🟡' : ... : '👑'] *)
Definition bandEmojiOf (edgeBand : string) : string :=
  if decide (edgeBand = "0-2") then "🔴"
  else if decide (edgeBand = "2-5") then "🟡"
  else if decide (edgeBand = "5-7") then "🟢"
  else if decide (edgeBand = "7-9") then "🔥"
  else if decide (edgeBand = "9-12") then "💎"
  else "👑".

(** The object pushed for a prediction below the threshold. *)
Definition lowEdgeGame (p : SheetRow) : Game :=
  let edge := parse_field p "Edge" in
  let edgeBand := edgeBandOf edge in
  {| pred := p;
     edge := edge;
     edgeBand := edgeBand;
     bandEmoji := bandEmojiOf edgeBand;
     betRec := "Below Threshold";
     confidence := "Low Edge";
     vegasLine := parse_field p "Line";
     betType := None |}.

(** [if (!bandGroups[band]) bandGroups[band] = []; bandGroups[band].push(g)]
    for a [band] that is one of the six bands, as every band of a game is. *)
Definition push (band : string) (g : Game) (bandGroups : gmap string (list Game))
    : gmap string (list Game) :=
  <[band := default [] (bandGroups !! band) ++ [g]]> bandGroups.

(** The groups after the two [forEach] loops. *)
Definition bandGroups (predictions : list SheetRow) : gmap string (list Game) :=
  let groups :=
    foldl (λ groups bet, push (Dashboard.edgeBand bet) (ofOpportunity bet) groups)
          ∅ (bettingOpps predictions) in
  foldl (λ groups p,
           let edge := parse_field p "Edge" in
           if lt edge minEdge then push (edgeBandOf edge) (lowEdgeGame p) groups
           else groups)
        groups (filter (λ p, has_line p) predictions).

Definition bandOrder : list string := ["12+"; "9-12"; "7-9"; "5-7"; "2-5"; "0-2"].

(** The comparator [(a, b) => b.edge - a.edge]. *)
Definition by_edge_desc (a b : Game) : number := sub (edge b) (edge a).

(** [bandOrder.map(band => ...).filter(Boolean)]: of each band with at least
    one game, the band and its games, sorted. *)
Definition bandSections (predictions : list SheetRow) : list (string * list Game) :=
  omap (λ band,
          match bandGroups predictions !! band with
          | None | Some [] => None
          | Some games => Some (band, sort by_edge_desc games)
          end)
       bandOrder.

(** A card of the games by schedule. *)
Record Card := {
  card_pred : SheetRow;
  card_edge : number;
  card_edgeBand : string;
  card_bandEmoji : string;
  card_betRec : string;
  card_betType : string;
  isGoodBet : bool;
}.

Definition scheduleCard (p : SheetRow) : Card :=
  let edge := parse_field p "Edge" in
  let predDiff := parse_field p "Predicted Difference" in
  let vegasLine := parse_field p "Line" in
  let edgeBand := edgeBandOf edge in
  let '(betRec, betType) :=
    if ge edge minEdge then
      if gt predDiff vegasLine
      then ("Take " +:+ to_string (p !! "Favorite") +:+ " -" +:+ toString vegasLine,
            "Favorite")
      else ("Take " +:+ to_string (p !! "Underdog") +:+ " +" +:+ toString vegasLine,
            "Underdog")
    else ("Below Threshold", "Low Edge") in
  {| card_pred := p;
     card_edge := edge;
     card_edgeBand := edgeBand;
     card_bandEmoji := bandEmojiOf edgeBand;
     card_betRec := betRec;
     card_betType := betType;
     isGoodBet := ge edge minEdge |}.

(** The games by schedule, in the order of the sheet. *)
Definition schedule (predictions : list SheetRow) : list Card :=
  scheduleCard <$> filter (λ p, has_line p) predictions.

(** What a game of a band group and a card of the schedule both show. *)
Definition shown_of_game (g : Game) : SheetRow * number * string * string * string :=
  (pred g, edge g, edgeBand g, bandEmoji g, betRec g).

Definition shown_of_card (c : Card) : SheetRow * number * string * string * string :=
  (card_pred c, card_edge c, card_edgeBand c, card_bandEmoji c, card_betRec c).

End Tabbed.

(** ** The themed dashboard: the colours of a card *)

Module Themed.

(** The border and the background of the card of an opportunity, by its
    band and by whether the theme is the neon one. *)
Definition cardColors (neon : bool) (edgeBand : string) : string * string :=
  if decide (edgeBand = "12+") then
    ("border-purple-500", if neon then "bg-purple-500/10" else "bg-purple-900/20")
  else if decide (edgeBand = "9-12") then
    ("border-blue-500", if neon then "bg-blue-500/10" else "bg-blue-900/20")
  else if decide (edgeBand = "7-9") then
    ("border-red-500", if neon then "bg-red-500/10" else "bg-red-900/20")
  else if decide (edgeBand = "5-7") then
    ("border-green-500", if neon then "bg-green-500/10" else "bg-green-900/20")
  else
    ("border-yellow-500", if neon then "bg-yellow-500/10" else "bg-yellow-900/20").

End Themed.

(** ** route.ts: the private key of the service account *)

Module Credentials.

(** [key.replace(/\\n/g, '\n')]: every backslash followed by [n] becomes a
    line feed, from the left. *)
Fixpoint unescape (key : string) : string :=
  match key with
  | String a rest =>
      match rest with
      | String b rest' =>
          if bool_decide (a = "\"%char ∧ b = "n"%char)
          then String "010"%char (unescape rest')
          else String a (unescape rest)
      | EmptyString => key
      end
  | EmptyString => key
  end.

(** Credentials come from the environment when both variables are set and
    not empty; otherwise the local file is read. *)
Definition fromEnvironment (privateKey clientEmail : option string)
    : option (string * string) :=
  if truthy_str privateKey && truthy_str clientEmail
  then Some (unescape (to_string privateKey), to_string clientEmail)
  else None.

(** A backslash followed by [n] occurs in the string. *)
Fixpoint escaped (s : string) : bool :=
  match s with
  | String a rest =>
      match rest with
      | String b _ => bool_decide (a = "\"%char ∧ b = "n"%char) || escaped rest
      | EmptyString => false
      end
  | EmptyString => false
  end.

End Credentials.

(** ** What the page and the dashboards both show of an opportunity *)

Module Shown.

(** The recommendation, the edge, the Vegas line and the band. *)
Record t := {
  betRec : string;
  edge : number;
  vegasLine : number;
  edgeBand : string;
}.

Definition of_page (opp : Page.BettingOpportunity) : t :=
  {| betRec := Page.betRecommendation opp;
     edge := Page.edge opp;
     vegasLine := Page.vegasLine opp;
     edgeBand := Page.edgeBand opp |}.

Definition of_dashboard (bet : Dashboard.Opportunity) : t :=
  {| betRec := Dashboard.betRec bet;
     edge := Dashboard.edge bet;
     vegasLine := Dashboard.vegasLine bet;
     edgeBand := Dashboard.edgeBand bet |}.

End Shown.

(** * Facts about binary64 arithmetic *)

Module NumberFacts.
Import Number.

(** *** Order: structural facts about the IEEE comparison *)

Ltac cmp_cases :=
  repeat match goal with
  | |- context [Pos.compare_cont Eq ?a ?b] =>
      change (Pos.compare_cont Eq a b) with (Pos.compare a b)
  | H : context [Pos.compare_cont Eq ?a ?b] |- _ =>
      change (Pos.compare_cont Eq a b) with (Pos.compare a b) in H
  end;
  repeat match goal with
  | |- context [Z.compare ?a ?b] => destruct (Z.compare_spec a b)
  | H : context [Z.compare ?a ?b] |- _ => destruct (Z.compare_spec a b)
  | |- context [Pos.compare ?a ?b] => destruct (Pos.compare_spec a b)
  | H : context [Pos.compare ?a ?b] |- _ => destruct (Pos.compare_spec a b)
  end; simpl in *; try congruence; try lia.

Lemma compare_antisym (x y : number) :
  SFcompare y x = CompOpp <$> SFcompare x y.
Proof.
  destruct x as [[]|[]| |[] m e], y as [[]|[]| |[] m' e']; simpl; try reflexivity;
    cmp_cases.
Qed.

Lemma ge_is_le x y : ge x y = le y x.
Proof. reflexivity. Qed.

Lemma lt_nge (x y : number) : isNaN x = false → isNaN y = false → lt x y = negb (ge x y).
Proof.
  unfold lt, ge, SFltb, SFleb. intros Hx Hy. rewrite (compare_antisym x y).
  destruct x as [[]|[]| |[] m e], y as [[]|[]| |[] m' e']; simpl in *; try congruence;
    cmp_cases.
Qed.

Lemma le_trans (x y z : number) : le x y = true → le y z = true → le x z = true.
Proof.
  unfold le, SFleb.
  destruct x as [[]|[]| |[] m e], y as [[]|[]| |[] m' e'], z as [[]|[]| |[] m'' e''];
    simpl; try congruence; cmp_cases.
Qed.

Lemma lt_le_trans (x y z : number) : lt x y = true → le y z = true → lt x z = true.
Proof.
  unfold lt, le, SFleb, SFltb.
  destruct x as [[]|[]| |[] m e], y as [[]|[]| |[] m' e'], z as [[]|[]| |[] m'' e''];
    simpl; try congruence; cmp_cases.
Qed.

Lemma le_lt_trans (x y z : number) : le x y = true → lt y z = true → lt x z = true.
Proof.
  unfold lt, le, SFleb, SFltb.
  destruct x as [[]|[]| |[] m e], y as [[]|[]| |[] m' e'], z as [[]|[]| |[] m'' e''];
    simpl; try congruence; cmp_cases.
Qed.


(** *** Digits *)

Lemma fexp_eq (e : Z) : fexp prec emax e = Z.max (e - 53) (-1074).
Proof. reflexivity. Qed.

Lemma digits2_pos_bounds (p : positive) :
  2 ^ (Z.pos (digits2_pos p) - 1) ≤ Z.pos p < 2 ^ Z.pos (digits2_pos p).
Proof.
  induction p as [p IH|p IH|]; simpl digits2_pos; [| |simpl; lia];
    rewrite Pos2Z.inj_succ;
    replace (Z.succ (Z.pos (digits2_pos p)) - 1)
      with (Z.succ (Z.pos (digits2_pos p) - 1)) by lia;
    rewrite !Z.pow_succ_r by lia;
    generalize dependent (2 ^ (Z.pos (digits2_pos p) - 1));
    generalize dependent (2 ^ Z.pos (digits2_pos p)); lia.
Qed.

Lemma dig_bounds (m : Z) : 0 < m → 0 < dig m ∧ 2 ^ (dig m - 1) ≤ m < 2 ^ dig m.
Proof.
  destruct m as [|p|p]; try lia. intros _. split; [simpl; lia|].
  apply digits2_pos_bounds.
Qed.

Lemma dig_nonneg (m : Z) : 0 ≤ dig m.
Proof. destruct m; simpl; lia. Qed.

Lemma dig_unique (m k : Z) : 2 ^ (k - 1) ≤ m < 2 ^ k → 0 < m → dig m = k.
Proof.
  intros [Hl Hu] Hm. destruct (dig_bounds m Hm) as (Hd & Hdl & Hdu).
  assert (0 ≤ k) by (destruct (Z.le_gt_cases 0 k); [done|]; rewrite Z.pow_neg_r in Hu; lia).
  assert (k - 1 < dig m) by (apply (Z.pow_lt_mono_r_iff 2); lia).
  assert (dig m - 1 < k) by (apply (Z.pow_lt_mono_r_iff 2); lia).
  lia.
Qed.

Lemma dig_lt_pow (m k : Z) : 0 ≤ m → 0 ≤ k → m < 2 ^ k → dig m ≤ k.
Proof.
  intros Hm Hk Hlt. destruct (Z.eq_dec m 0) as [->|]; [simpl; lia|].
  destruct (dig_bounds m ltac:(lia)) as (Hd & Hdl & Hdu).
  assert (dig m - 1 < k) by (apply (Z.pow_lt_mono_r_iff 2); lia). lia.
Qed.

Lemma dig_ge_pow (m k : Z) : 0 ≤ k → 2 ^ k ≤ m → k < dig m.
Proof.
  intros Hk Hle. assert (0 < m) by (pose proof (Z.pow_pos_nonneg 2 k); lia).
  destruct (dig_bounds m ltac:(lia)) as (Hd & Hdl & Hdu).
  apply (Z.pow_lt_mono_r_iff 2); lia.
Qed.

(** *** Shifting a mantissa to the right *)

Lemma iter_pos_invariant {A} (f : A → A) (P : Z → A → Prop) :
  (∀ k x, 0 ≤ k → P k x → P (k + 1) (f x)) →
  ∀ p k x, 0 ≤ k → P k x → P (k + Z.pos p) (SpecFloat.iter_pos f p x).
Proof.
  intros Hf. induction p as [p IH|p IH|]; intros k x Hk HP; simpl.
  - replace (k + Z.pos p~1) with (k + 1 + Z.pos p + Z.pos p) by lia.
    apply IH; [lia|]. apply IH; [lia|]. by apply Hf.
  - replace (k + Z.pos p~0) with (k + Z.pos p + Z.pos p) by lia.
    apply IH; [lia|]. by apply IH.
  - by apply Hf.
Qed.

Lemma shr_1_m (mrs : shr_record) : 0 ≤ shr_m mrs → shr_m (shr_1 mrs) = shr_m mrs / 2.
Proof.
  destruct mrs as [m r s]; simpl. intros Hm. rewrite <- Z.div2_div.
  destruct m as [|[p|p|]|p]; try reflexivity; lia.
Qed.

Lemma shr_1_exact (mrs : shr_record) :
  0 ≤ shr_m mrs → exact mrs → Z.even (shr_m mrs) = true → exact (shr_1 mrs).
Proof.
  destruct mrs as [m r s]; unfold exact; simpl. intros Hm [-> ->] Hev.
  destruct m as [|[p|p|]|p]; simpl in *; try done.
Qed.

Lemma shr_spec (mrs : shr_record) (e n : Z) :
  0 ≤ shr_m mrs → 0 ≤ n →
  snd (shr mrs e n) = e + n
  ∧ shr_m (fst (shr mrs e n)) = shr_m mrs / 2 ^ n
  ∧ (exact mrs → shr_m mrs mod 2 ^ n = 0 → exact (fst (shr mrs e n))).
Proof.
  intros Hm Hn. destruct n as [|p|p]; try lia; simpl.
  - rewrite Z.div_1_r. split; [lia|]. done.
  - split; [done|].
    pose (P := λ (k : Z) (x : shr_record),
      shr_m x = shr_m mrs / 2 ^ k
      ∧ (exact mrs → shr_m mrs mod 2 ^ k = 0 → exact x)).
    assert (HP : P (0 + Z.pos p) (SpecFloat.iter_pos shr_1 p mrs)).
    { apply iter_pos_invariant; [|lia|].
      - intros k x Hk [Hx1 Hx2]. 
        assert (0 < 2 ^ k) by (apply Z.pow_pos_nonneg; lia).
        assert (0 ≤ shr_m x) by (rewrite Hx1; apply Z.div_pos; lia).
        split.
        + rewrite shr_1_m by done. rewrite Hx1, Z.div_div by lia.
          by rewrite Z.pow_add_r by lia.
        + intros Hex Hmod. rewrite Z.pow_add_r in Hmod by lia.
          apply Z.mod_divide in Hmod; [|lia]. destruct Hmod as [c Hc].
          apply shr_1_exact; [done| |].
          * apply Hx2; [done|]. apply Z.mod_divide; [lia|]. exists (c * 2). lia.
          * rewrite Hx1. replace (shr_m mrs) with ((c * 2) * 2 ^ k) by lia.
            rewrite Z.div_mul by lia. rewrite Z.even_mul. simpl. by rewrite orb_true_r.
      - split; [by rewrite Z.div_1_r|]. done. }
    exact HP.
Qed.


(** *** Rounding to nearest *)

Lemma shr_nonpos (mrs : shr_record) (e n : Z) : n ≤ 0 → shr mrs e n = (mrs, e).
Proof. destruct n; simpl; [done|lia|done]. Qed.

Lemma bounded_intro (m : positive) (e : Z) :
  -1074 ≤ e ≤ 971 → Z.pos m < 2 ^ 53 → (-1074 < e → 2 ^ 52 ≤ Z.pos m) →
  bounded prec emax m e = true.
Proof.
  intros He Hm Hn. unfold bounded, canonical_mantissa. rewrite fexp_eq.
  apply andb_true_intro. split; [|apply Z.leb_le; unfold emax, prec; lia].
  apply Z.eqb_eq. change (Z.pos (digits2_pos m)) with (dig (Z.pos m)).
  destruct (Z.eq_dec e (-1074)) as [->|].
  - pose proof (dig_lt_pow (Z.pos m) 53). lia.
  - rewrite (dig_unique (Z.pos m) 53); [lia| |lia]. change (53 - 1) with 52. lia.
Qed.

Lemma bounded_elim (m : positive) (e : Z) :
  bounded prec emax m e = true →
  -1074 ≤ e ≤ 971 ∧ Z.pos m < 2 ^ 53 ∧ (-1074 < e → 2 ^ 52 ≤ Z.pos m).
Proof.
  unfold bounded, canonical_mantissa. rewrite fexp_eq. intros H.
  apply andb_prop in H as [H1 H2]. apply Z.eqb_eq in H1. apply Z.leb_le in H2.
  unfold emax, prec in H2. change (Z.pos (digits2_pos m)) with (dig (Z.pos m)) in H1.
  destruct (dig_bounds (Z.pos m)) as (Hd & Hl & Hu); [lia|].
  assert (dig (Z.pos m) ≤ 53) by lia.
  split; [lia|]. split.
  - eapply Z.lt_le_trans; [exact Hu|]. apply Z.pow_le_mono_r; lia.
  - intros He. assert (dig (Z.pos m) = 53) as Hd53 by lia.
    rewrite Hd53 in Hl. exact Hl.
Qed.

Lemma round_finish (sx : bool) (m1 E : Z) :
  -1074 ≤ E → 0 ≤ m1 ≤ 2 ^ 53 → (-1074 < E → 2 ^ 52 ≤ m1) →
  rounded sx m1 E
    (let '(mrs, e) := shr_fexp prec emax m1 E loc_Exact in
     match shr_m mrs with
     | 0 => S754_zero sx
     | Z.pos m => if e <=? emax - prec then S754_finite sx m e else S754_infinity sx
     | Z.neg _ => S754_nan
     end).
Proof.
  intros HE Hm Hnorm. unfold shr_fexp. fold (dig m1). rewrite fexp_eq. simpl shr_record_of_loc.
  change (emax - prec) with 971.
  destruct (Z.eq_dec m1 0) as [->|Hnz].
  { rewrite shr_nonpos by (simpl; lia). simpl. left. done. }
  destruct (Z.eq_dec m1 (2 ^ 53)) as [->|Hlt].
  { change (dig (2 ^ 53)) with 54.
    replace (Z.max (54 + E - 53) (-1074) - E) with 1 by lia. simpl.
    right. destruct (Z.leb_spec (E + 1) 971).
    - right. split; [done|]. eexists _, _. split; [done|]. split.
      + apply bounded_intro; [lia|done|done].
      + replace (E + 1 + 1074) with (1 + (E + 1074)) by lia.
        rewrite Z.pow_add_r by lia. change (2 ^ 1) with 2.
        change (2 ^ 53) with 9007199254740992. lia.
    - left. split; [done|]. split; [done|].
      replace (E + 1074) with (2045 + (E - 971)) by lia.
      rewrite Z.pow_add_r by lia. 
      assert (1 ≤ 2 ^ (E - 971)) by (apply (Z.pow_le_mono_r 2 0); lia).
      change (2 ^ 2098) with (2 ^ 53 * 2 ^ 2045). 
      assert (0 < 2 ^ 53 * 2 ^ 2045) by done. nia. }
  assert (Hd : dig m1 ≤ 53) by (apply dig_lt_pow; lia).
  rewrite shr_nonpos by lia. simpl.
  destruct m1 as [|m|m]; try lia.
  right. destruct (Z.leb_spec E 971).
  - right. split; [done|]. eexists _, _. split; [done|]. split; [|done].
    apply bounded_intro; [lia|lia|done].
  - left. split; [done|]. split; [done|].
    replace (E + 1074) with (2046 + (E - 972)) by lia.
    rewrite Z.pow_add_r by lia.
    assert (1 ≤ 2 ^ (E - 972)) by (apply (Z.pow_le_mono_r 2 0); lia).
    assert (2 ^ 52 ≤ Z.pos m) by (apply Hnorm; lia).
    change (2 ^ 2098) with (2 ^ 52 * 2 ^ 2046).
    assert (0 < 2 ^ 2046) by done. assert (0 < 2 ^ 52) by done. nia.
Qed.


Lemma shr_record_of_loc_m (m : Z) (l : location) : shr_m (shr_record_of_loc m l) = m.
Proof. by destruct l as [|[]]. Qed.

Lemma round_nearest_even_bounds (mrs : shr_record) :
  shr_m mrs ≤ round_nearest_even (shr_m mrs) (loc_of_shr_record mrs) ≤ shr_m mrs + 1
  ∧ (exact mrs → round_nearest_even (shr_m mrs) (loc_of_shr_record mrs) = shr_m mrs).
Proof.
  destruct mrs as [m [] []]; unfold exact; simpl; (split; [|intros []; done]);
    try destruct (Z.even m); lia.
Qed.

Lemma round_aux_spec (sx : bool) (mx ex : Z) (lx : location) :
  0 ≤ mx → roundable mx ex →
  let E := fexp prec emax (dig mx + ex) in
  ∃ m1 : Z,
    mx / 2 ^ (E - ex) ≤ m1 ≤ mx / 2 ^ (E - ex) + 1
    ∧ (lx = loc_Exact → mx mod 2 ^ (E - ex) = 0 → m1 = mx / 2 ^ (E - ex))
    ∧ rounded sx m1 E (binary_round_aux prec emax sx mx ex lx).
Proof.
  intros Hm Hpre E. unfold roundable in Hpre. fold E in Hpre.
  assert (HE : -1074 ≤ E) by (unfold E; rewrite fexp_eq; lia).
  assert (HEd : dig mx + ex - 53 ≤ E) by (unfold E; rewrite fexp_eq; lia).
  unfold binary_round_aux. unfold shr_fexp at 1. fold (dig mx). fold E.
  destruct (shr_spec (shr_record_of_loc mx lx) ex (E - ex)) as (He' & Hm' & Hex').
  { rewrite shr_record_of_loc_m. done. }
  { lia. }
  rewrite shr_record_of_loc_m in Hm', Hex'.
  destruct (shr (shr_record_of_loc mx lx) ex (E - ex)) as [mrs' e'].
  simpl in He', Hm', Hex'. replace e' with E by lia. clear He' e'.
  destruct (round_nearest_even_bounds mrs') as [Hb Hbe].
  set (m1 := round_nearest_even (shr_m mrs') (loc_of_shr_record mrs')) in *.
  rewrite Hm' in Hb.
  assert (Hpow : 0 < 2 ^ (E - ex)) by (apply Z.pow_pos_nonneg; lia).
  exists m1. split; [exact Hb|]. split.
  { intros -> Hmod. rewrite <- Hm'. apply Hbe, Hex'; [done|exact Hmod]. }
  assert (Hlt53 : mx / 2 ^ (E - ex) < 2 ^ 53).
  { apply Z.div_lt_upper_bound; [done|]. rewrite <- Z.pow_add_r by lia.
    destruct (Z.eq_dec mx 0) as [->|]; [apply Z.pow_pos_nonneg; lia|].
    destruct (dig_bounds mx) as (Hd & Hl & Hu); [lia|].
    eapply Z.lt_le_trans; [exact Hu|]. apply Z.pow_le_mono_r; lia. }
  apply (round_finish sx m1 E); [done| |].
  - split; [|lia]. assert (0 ≤ mx / 2 ^ (E - ex)) by (apply Z.div_pos; lia). lia.
  - intros Hn. assert (HEeq : E = dig mx + ex - 53) by (unfold E in *; rewrite fexp_eq in *; lia).
    assert (mx ≠ 0) by (intros ->; simpl in HEeq; lia).
    destruct (dig_bounds mx) as (Hd & Hl & Hu); [lia|].
    assert (2 ^ 52 ≤ mx / 2 ^ (E - ex)); [|lia].
    apply Z.div_le_lower_bound; [done|]. rewrite <- Z.pow_add_r by lia.
    replace (E - ex + 52) with (dig mx - 1) by lia. done.
Qed.


(** *** Comparison of canonical values is comparison of magnitudes *)

Lemma mag_pos (m : positive) (e : Z) : -1074 ≤ e → 0 < mag m e.
Proof.
  intros He. unfold mag. apply Z.mul_pos_pos; [lia|]. apply Z.pow_pos_nonneg; lia.
Qed.

Lemma mag_lt (m1 m2 : positive) (e1 e2 : Z) :
  bounded prec emax m1 e1 = true → bounded prec emax m2 e2 = true →
  e1 < e2 → mag m1 e1 < mag m2 e2.
Proof.
  intros H1 H2 Hlt. apply bounded_elim in H1 as (He1 & Hm1 & _).
  apply bounded_elim in H2 as (He2 & _ & Hm2). unfold mag.
  replace (e2 + 1074) with ((e2 - e1) + (e1 + 1074)) by lia.
  rewrite (Z.pow_add_r 2 (e2 - e1) (e1 + 1074)) by lia.
  assert (0 < 2 ^ (e1 + 1074)) by (apply Z.pow_pos_nonneg; lia).
  assert (2 ^ 1 ≤ 2 ^ (e2 - e1)) by (apply Z.pow_le_mono_r; lia).
  assert (2 ^ 52 ≤ Z.pos m2) by (apply Hm2; lia).
  change (2 ^ 1) with 2 in *. change (2 ^ 53) with 9007199254740992 in *.
  change (2 ^ 52) with 4503599627370496 in *.
  generalize dependent (2 ^ (e1 + 1074)). generalize dependent (2 ^ (e2 - e1)).
  intros a ? b ?. assert (Z.pos m1 < Z.pos m2 * a) by nia.
  rewrite Z.mul_assoc. apply Z.mul_lt_mono_pos_r; lia.
Qed.

Lemma mag_compare (m1 m2 : positive) (e1 e2 : Z) :
  bounded prec emax m1 e1 = true → bounded prec emax m2 e2 = true →
  (mag m1 e1 ?= mag m2 e2) =
    match e1 ?= e2 with
    | Lt => Lt
    | Gt => Gt
    | Eq => Pos.compare_cont Eq m1 m2
    end.
Proof.
  intros H1 H2. destruct (Z.compare_spec e1 e2) as [->|Hlt|Hgt].
  - unfold mag. rewrite <- Zmult_compare_compat_r; [done|].
    apply bounded_elim in H2 as (He2 & _ & _). apply Z.lt_gt, Z.pow_pos_nonneg; lia.
  - apply Z.compare_lt_iff. by apply mag_lt.
  - apply Z.compare_gt_iff. by apply mag_lt.
Qed.

Lemma units_finite (s : bool) (m : positive) (e : Z) :
  units (S754_finite s m e) = cond_Zopp s (mag m e).
Proof. reflexivity. Qed.

Lemma compare_units (x y : number) :
  valid x = true → valid y = true → finite x → finite y →
  SFcompare x y = Some (units x ?= units y).
Proof.
  destruct x as [sx|sx| |sx mx ex], y as [sy|sy| |sy my ey];
    cbn [valid valid_binary finite SFcompare]; try done;
    intros Hx Hy _ _; rewrite ?units_finite; cbn [units]; f_equal.
  - pose proof (bounded_elim _ _ Hy) as (? & _ & _). pose proof (mag_pos my ey).
    destruct sy; cbn [cond_Zopp];
      destruct (Z.compare_spec 0 (- mag my ey)); destruct (Z.compare_spec 0 (mag my ey));
      try reflexivity; lia.
  - pose proof (bounded_elim _ _ Hx) as (? & _ & _). pose proof (mag_pos mx ex).
    destruct sx; cbn [cond_Zopp];
      destruct (Z.compare_spec (- mag mx ex) 0); destruct (Z.compare_spec (mag mx ex) 0);
      try reflexivity; lia.
  - pose proof (bounded_elim _ _ Hx) as (? & _ & _). pose proof (mag_pos mx ex).
    pose proof (bounded_elim _ _ Hy) as (? & _ & _). pose proof (mag_pos my ey).
    destruct sx, sy; cbn [cond_Zopp].
    + rewrite Z.compare_opp, (mag_compare my mx ey ex) by done.
      rewrite (Z.compare_antisym ey ex), (ZC4 mx my).
      destruct (ey ?= ex); simpl; [apply CompOpp_involutive|done|done].
    + symmetry. apply Z.compare_lt_iff. lia.
    + symmetry. apply Z.compare_gt_iff. lia.
    + by rewrite mag_compare.
Qed.

Lemma le_units (x y : number) :
  valid x = true → valid y = true → finite x → finite y →
  le x y = true ↔ units x ≤ units y.
Proof.
  intros. unfold le, SFleb. rewrite compare_units by done.
  destruct (Z.compare_spec (units x) (units y)); split; (lia || done).
Qed.

Lemma lt_units (x y : number) :
  valid x = true → valid y = true → finite x → finite y →
  lt x y = true ↔ units x < units y.
Proof.
  intros. unfold lt, SFltb. rewrite compare_units by done.
  destruct (Z.compare_spec (units x) (units y)); split; (lia || done).
Qed.


(** *** What a rounded result satisfies *)

Lemma rounded_valid (sx : bool) (m1 E : Z) (r : number) :
  rounded sx m1 E r → valid r = true.
Proof. intros [[_ ->]|[(_ & -> & _)|(_ & m2 & e2 & -> & Hb & _)]]; done. Qed.

Lemma rounded_not_nan (sx : bool) (m1 E : Z) (r : number) :
  rounded sx m1 E r → isNaN r = false.
Proof. intros [[_ ->]|[(_ & -> & _)|(_ & m2 & e2 & -> & Hb & _)]]; done. Qed.

Lemma rounded_nonneg (m1 E : Z) (r : number) :
  rounded false m1 E r → le zero r = true.
Proof. intros [[_ ->]|[(_ & -> & _)|(_ & m2 & e2 & -> & Hb & _)]]; done. Qed.

Lemma rounded_pos (m1 E : Z) (r : number) :
  rounded false m1 E r → 0 < m1 → lt zero r = true.
Proof. intros [[-> ->]|[(_ & -> & _)|(_ & m2 & e2 & -> & Hb & _)]]; (done || lia). Qed.

Lemma rounded_nonpos (m1 E : Z) (r : number) :
  rounded true m1 E r → lt zero r = false.
Proof. intros [[_ ->]|[(_ & -> & _)|(_ & m2 & e2 & -> & Hb & _)]]; done. Qed.

Lemma units_bound (b : number) : valid b = true → units b < 2 ^ 2098.
Proof.
  destruct b as [s|s| |s m e]; try done. cbn [valid valid_binary units]. intros Hb.
  apply bounded_elim in Hb as (He & Hm & _). fold (mag m e).
  pose proof (mag_pos m e ltac:(lia)).
  assert (mag m e < 2 ^ 2098); [|destruct s; simpl; lia].
  unfold mag. change (2 ^ 2098) with (2 ^ 53 * 2 ^ 2045).
  assert (2 ^ (e + 1074) ≤ 2 ^ 2045) by (apply Z.pow_le_mono_r; lia).
  assert (0 < 2 ^ (e + 1074)) by (apply Z.pow_pos_nonneg; lia).
  generalize dependent (2 ^ (e + 1074)). generalize dependent (2 ^ 2045).
  generalize dependent (2 ^ 53). intros. nia.
Qed.

Lemma rounded_le (m1 E : Z) (r b : number) :
  rounded false m1 E r → valid b = true → finite b →
  m1 * 2 ^ (E + 1074) ≤ units b → le r b = true.
Proof.
  intros Hr Hb Hfin Hle. pose proof (units_bound b Hb).
  destruct Hr as [[-> ->]|[(_ & -> & ?)|(_ & m2 & e2 & -> & Hb2 & Hmag)]].
  - apply le_units; [done..|]. simpl. lia.
  - lia.
  - apply le_units; [done..|]. rewrite units_finite. unfold mag. simpl. lia.
Qed.

(** *** Rounding an integer mantissa: [binary_round] *)

Lemma pos_iter_xO (m d : positive) : Z.pos (Pos.iter xO m d) = Z.pos m * 2 ^ Z.pos d.
Proof.
  induction d as [|d IH] using Pos.peano_ind.
  - simpl. lia.
  - rewrite Pos.iter_succ, Pos2Z.inj_xO, IH, Pos2Z.inj_succ, Z.pow_succ_r by lia. lia.
Qed.

Lemma dig_shift (m k : Z) : 0 < m → 0 ≤ k → dig (m * 2 ^ k) = dig m + k.
Proof.
  intros Hm Hk. destruct (dig_bounds m Hm) as (Hd & Hl & Hu).
  assert (0 < 2 ^ k) by (apply Z.pow_pos_nonneg; lia).
  apply dig_unique; [|nia].
  replace (dig m + k - 1) with (dig m - 1 + k) by lia.
  rewrite !Z.pow_add_r by lia. nia.
Qed.

Lemma binary_round_spec (sx : bool) (mx : positive) (ex : Z) :
  let E := fexp prec emax (dig (Z.pos mx) + ex) in
  ∃ m1 : Z,
    rounded sx m1 E (binary_round prec emax sx mx ex)
    ∧ (E ≤ ex → m1 = Z.pos mx * 2 ^ (ex - E))
    ∧ (ex ≤ E → Z.pos mx / 2 ^ (E - ex) ≤ m1 ≤ Z.pos mx / 2 ^ (E - ex) + 1).
Proof.
  intros E. unfold binary_round, shl_align.
  change (Z.pos (digits2_pos mx)) with (dig (Z.pos mx)). fold E.
  destruct (E - ex) as [|d|d] eqn:Hd.
  - assert (HEx : ex = E) by lia.
    destruct (round_aux_spec sx (Z.pos mx) ex loc_Exact) as (m1 & Hb & Hexact & Hr);
      [done|unfold roundable; fold E; lia|].
    fold E in Hb, Hexact, Hr. rewrite Hd in Hb, Hexact.
    change (2 ^ 0) with 1 in *. rewrite Z.div_1_r in *.
    exists m1. split; [exact Hr|]. split; [|lia].
    intros _. rewrite Hexact; [|done|apply Z.mod_1_r].
    replace (ex - E) with 0 by lia. simpl. lia.
  - assert (HEx : ex < E) by lia.
    destruct (round_aux_spec sx (Z.pos mx) ex loc_Exact) as (m1 & Hb & Hexact & Hr);
      [done|unfold roundable; fold E; lia|].
    fold E in Hb, Hexact, Hr. rewrite Hd in Hb.
    exists m1. split; [exact Hr|]. split; [lia|]. intros _. exact Hb.
  - assert (HEx : ex - E = Z.pos d) by lia.
    assert (HE : dig (Z.pos (Pos.iter xO mx d)) + E = dig (Z.pos mx) + ex).
    { rewrite pos_iter_xO, dig_shift by lia. lia. }
    destruct (round_aux_spec sx (Z.pos (Pos.iter xO mx d)) E loc_Exact)
      as (m1 & Hb & Hexact & Hr); [done|unfold roundable; rewrite HE; fold E; lia|].
    rewrite HE in Hb, Hexact, Hr. fold E in Hb, Hexact, Hr.
    rewrite Z.sub_diag in Hb, Hexact. change (2 ^ 0) with 1 in *.
    rewrite Z.div_1_r in *.
    exists m1. split; [exact Hr|]. split; [|lia].
    intros _. rewrite Hexact; [|done|apply Z.mod_1_r].
    rewrite pos_iter_xO, HEx. done.
Qed.


(** *** The sign of a difference *)

Lemma binary_round_pos (mx : positive) (ex : Z) :
  -1074 ≤ ex → lt zero (binary_round prec emax false mx ex) = true.
Proof.
  intros Hex. destruct (binary_round_spec false mx ex) as (m1 & Hr & Hhi & Hlo).
  apply (rounded_pos _ _ _ Hr).
  set (E := fexp prec emax (dig (Z.pos mx) + ex)) in *.
  destruct (Z.le_gt_cases E ex) as [Hle|Hgt].
  - rewrite (Hhi Hle). apply Z.mul_pos_pos; [lia|]. apply Z.pow_pos_nonneg; lia.
  - destruct (dig_bounds (Z.pos mx)) as (Hd & Hl & _); [lia|].
    assert (E - ex ≤ dig (Z.pos mx) - 1) by (unfold E; rewrite fexp_eq; lia).
    assert (1 ≤ Z.pos mx / 2 ^ (E - ex)); [|lia].
    apply Z.div_le_lower_bound; [apply Z.pow_pos_nonneg; lia|].
    rewrite Z.mul_1_r. etransitivity; [|exact Hl]. apply Z.pow_le_mono_r; lia.
Qed.

Lemma binary_normalize_sign (m ex : Z) :
  -1074 ≤ ex → lt zero (binary_normalize prec emax m ex false) = (0 <? m).
Proof.
  intros Hex. destruct m as [|p|p]; simpl binary_normalize.
  - done.
  - by rewrite binary_round_pos.
  - destruct (binary_round_spec true p ex) as (m1 & Hr & _).
    by rewrite (rounded_nonpos _ _ _ Hr).
Qed.

Lemma shl_align_fst (m : positive) (e ez : Z) :
  ez ≤ e → Z.pos (fst (shl_align m e ez)) = Z.pos m * 2 ^ (e - ez).
Proof.
  intros Hle. unfold shl_align. destruct (ez - e) as [|d|d] eqn:Hd; simpl.
  - replace (e - ez) with 0 by lia. simpl. lia.
  - lia.
  - rewrite pos_iter_xO. do 2 f_equal. lia.
Qed.

Lemma aligned_units (s : bool) (m : positive) (e ez : Z) :
  -1074 ≤ ez → ez ≤ e →
  cond_Zopp s (Z.pos (fst (shl_align m e ez))) * 2 ^ (ez + 1074)
  = units (S754_finite s m e).
Proof.
  intros Hz Hle. rewrite shl_align_fst by done. cbn [units]. unfold mag.
  replace (e + 1074) with ((e - ez) + (ez + 1074)) by lia.
  rewrite (Z.pow_add_r 2 (e - ez) (ez + 1074)) by lia. destruct s; simpl; lia.
Qed.

(** The comparator of the sort: [y - x > 0] exactly when [x < y]. *)
Lemma sub_gt_zero (x y : number) :
  valid x = true → valid y = true → isNaN x = false → isNaN y = false →
  gt (sub y x) zero = lt x y.
Proof.
  destruct x as [sx|sx| |sx mx ex], y as [sy|sy| |sy my ey]; try done;
    try (by destruct sx, sy); try (by destruct sx); try (by destruct sy).
  intros Hx Hy _ _. unfold gt, sub, SFsub.
  pose proof (bounded_elim _ _ Hx) as (Hex & _ & _).
  pose proof (bounded_elim _ _ Hy) as (Hey & _ & _).
  set (ez := Z.min ey ex).
  fold (lt zero (binary_normalize prec emax
    (cond_Zopp sy (Z.pos (fst (shl_align my ey ez)))
     - cond_Zopp sx (Z.pos (fst (shl_align mx ex ez)))) ez false)).
  rewrite binary_normalize_sign by lia.
  pose proof (aligned_units sy my ey ez ltac:(lia) ltac:(lia)) as Uy.
  pose proof (aligned_units sx mx ex ez ltac:(lia) ltac:(lia)) as Ux.
  assert (Hp : 0 < 2 ^ (ez + 1074)) by (apply Z.pow_pos_nonneg; lia).
  apply eq_true_iff_eq. rewrite Z.ltb_lt. rewrite (lt_units _ _ Hx Hy) by done.
  rewrite <- Ux, <- Uy.
  generalize dependent (2 ^ (ez + 1074)).
  generalize (cond_Zopp sy (Z.pos (fst (shl_align my ey ez)))).
  generalize (cond_Zopp sx (Z.pos (fst (shl_align mx ex ez)))).
  intros a b p _ _ Hp. nia.
Qed.


(** *** A rounded value does not exceed a representable bound of the exact one *)

Lemma round_aux_le (mx ex : Z) (lx : location) (mb : positive) (eb K : Z) :
  0 ≤ mx → roundable mx ex → bounded prec emax mb eb = true →
  0 ≤ ex + K → 0 ≤ eb + K →
  mx * 2 ^ (ex + K) ≤ Z.pos mb * 2 ^ (eb + K) →
  (lx ≠ loc_Exact → mx * 2 ^ (ex + K) < Z.pos mb * 2 ^ (eb + K)) →
  le (binary_round_aux prec emax false mx ex lx) (S754_finite false mb eb) = true.
Proof.
  intros Hm Hpre Hb HK HKb Hle Hstrict.
  destruct (round_aux_spec false mx ex lx Hm Hpre) as (m1 & Hm1 & Hexact & Hr).
  set (E := fexp prec emax (dig mx + ex)) in *. unfold roundable in Hpre. fold E in Hpre.
  pose proof (bounded_elim _ _ Hb) as (Heb & Hmb & _).
  assert (HE : -1074 ≤ E) by (unfold E; rewrite fexp_eq; lia).
  assert (HEb : E ≤ eb).
  { destruct (Z.eq_dec mx 0) as [->|Hnz].
    - unfold E in *. rewrite fexp_eq in *. simpl in *. lia.
    - destruct (dig_bounds mx) as (Hd & Hl & _); [lia|].
      assert (dig mx - 1 + (ex + K) < 53 + (eb + K)); [|unfold E; rewrite fexp_eq; lia].
      apply (Z.pow_lt_mono_r_iff 2); [lia|lia|].
      rewrite (Z.pow_add_r 2 53 (eb + K)), (Z.pow_add_r 2 (dig mx - 1) (ex + K)) by lia.
      assert (0 < 2 ^ (ex + K)) by (apply Z.pow_pos_nonneg; lia).
      assert (0 < 2 ^ (eb + K)) by (apply Z.pow_pos_nonneg; lia).
      assert (2 ^ (dig mx - 1) * 2 ^ (ex + K) ≤ mx * 2 ^ (ex + K))
        by (apply Z.mul_le_mono_nonneg_r; lia).
      assert (Z.pos mb * 2 ^ (eb + K) < 2 ^ 53 * 2 ^ (eb + K))
        by (apply Z.mul_lt_mono_pos_r; lia).
      lia. }
  apply (rounded_le m1 E); [done|done|done|]. rewrite units_finite. simpl. unfold mag.
  set (Kb := Z.pos mb * 2 ^ (eb - E)).
  assert (HKb' : Z.pos mb * 2 ^ (eb + 1074) = Kb * 2 ^ (E + 1074)).
  { unfold Kb. rewrite <- Z.mul_assoc, <- Z.pow_add_r by lia. do 2 f_equal. lia. }
  rewrite HKb'. apply Z.mul_le_mono_nonneg_r; [apply Z.pow_nonneg; lia|].
  assert (Hp : 0 < 2 ^ (E - ex)) by (apply Z.pow_pos_nonneg; lia).
  assert (HK2 : Z.pos mb * 2 ^ (eb + K) = Kb * 2 ^ (E - ex) * 2 ^ (ex + K)).
  { unfold Kb. rewrite <- !Z.mul_assoc, <- !Z.pow_add_r by lia. do 2 f_equal. lia. }
  rewrite HK2 in Hle, Hstrict.
  assert (Hp2 : 0 < 2 ^ (ex + K)) by (apply Z.pow_pos_nonneg; lia).
  assert (Hmx : mx ≤ Kb * 2 ^ (E - ex)) by (apply Z.mul_le_mono_pos_r in Hle; lia).
  assert (Hdiv : mx / 2 ^ (E - ex) ≤ Kb).
  { apply Z.div_le_upper_bound; [done|]. lia. }
  destruct (Z.eq_dec (mx / 2 ^ (E - ex)) Kb) as [Heq|Hne]; [|lia].
  pose proof (Z.mul_div_le mx (2 ^ (E - ex)) Hp) as Hfl.
  assert (Hmx' : mx = Kb * 2 ^ (E - ex)) by nia.
  rewrite Hexact; [lia| |].
  - destruct lx as [|c]; [done|]. exfalso.
    assert (loc_Inexact c ≠ loc_Exact) as Hc by done. specialize (Hstrict Hc).
    rewrite Hmx' in Hstrict. lia.
  - rewrite Hmx'. apply Z.mod_mul. lia.
Qed.


(** *** Division *)

Lemma new_location_exact (m r : Z) : new_location m r = loc_Exact ↔ r = 0.
Proof.
  unfold new_location, new_location_even, new_location_odd.
  destruct (Z.even m); destruct (Z.eqb_spec r 0); split; done.
Qed.

Lemma div_core_spec (m1 e1 m2 e2 : Z) :
  0 < m1 → 0 < m2 →
  ∃ (q e' : Z) (l : location) (s r : Z),
    SFdiv_core_binary prec emax m1 e1 m2 e2 = (q, e', l)
    ∧ 0 ≤ s ∧ e' + s = e1 - e2
    ∧ m1 * 2 ^ s = m2 * q + r ∧ 0 ≤ r < m2
    ∧ (l = loc_Exact ↔ r = 0)
    ∧ 0 ≤ q ∧ roundable q e'.
Proof.
  intros H1 H2. unfold SFdiv_core_binary. fold (dig m1) (dig m2).
  set (e' := Z.min (fexp prec emax (dig m1 + e1 - (dig m2 + e2))) (e1 - e2)).
  set (s := e1 - e2 - e').
  assert (Hs : 0 ≤ s) by (unfold s, e'; lia).
  assert (Hm' : match s with Z.pos _ => Z.shiftl m1 s | 0 => m1 | Z.neg _ => 0 end
                = m1 * 2 ^ s).
  { destruct s eqn:Es; [simpl; lia| |lia]. rewrite Z.shiftl_mul_pow2; lia. }
  rewrite Hm'. pose proof (Z_div_mod (m1 * 2 ^ s) m2 ltac:(lia)) as Hdm.
  destruct (Z.div_eucl (m1 * 2 ^ s) m2) as [q r]. destruct Hdm as [Heq Hr].
  assert (Hp : 0 < 2 ^ s) by (apply Z.pow_pos_nonneg; lia).
  assert (Hq : 0 ≤ q) by nia.
  exists q, e', (new_location m2 r), s, r.
  split; [done|]. split; [done|]. split; [unfold s; lia|]. split; [done|]. split; [done|].
  split; [apply new_location_exact|]. split; [done|].
  unfold roundable. rewrite fexp_eq.
  destruct (Z.le_gt_cases e' (-1074)) as [|Hgt]; [lia|].
  assert (He' : e' ≤ dig m1 + e1 - (dig m2 + e2) - 53)
    by (unfold e' in *; rewrite fexp_eq in *; lia).
  destruct (dig_bounds m1 H1) as (Hd1 & Hl1 & _).
  destruct (dig_bounds m2 H2) as (Hd2 & _ & Hu2).
  assert (52 < dig q); [|lia]. apply dig_ge_pow; [lia|].
  assert (Hpow : 2 ^ (52 + dig m2) ≤ 2 ^ (dig m1 - 1 + s)).
  { apply Z.pow_le_mono_r; [lia|]. unfold s. lia. }
  rewrite !Z.pow_add_r in Hpow by lia.
  assert (2 ^ (dig m1 - 1) * 2 ^ s ≤ m1 * 2 ^ s)
    by (apply Z.mul_le_mono_nonneg_r; lia).
  assert (0 < 2 ^ 52) by done.
  generalize dependent (2 ^ 52). generalize dependent (2 ^ dig m2).
  generalize dependent (2 ^ (dig m1 - 1)). generalize dependent (2 ^ s).
  intros. nia.
Qed.

(** The quotient of two finite values, of whatever mantissas. *)
Lemma div_rounded (sx sy : bool) (mx my : positive) (ex ey : Z) :
  ∃ m1 E : Z,
    rounded (xorb sx sy) m1 E
      (div (S754_finite sx mx ex) (S754_finite sy my ey)).
Proof.
  destruct (div_core_spec (Z.pos mx) ex (Z.pos my) ey) as
    (q & e' & l & s & r & Hcore & _ & _ & _ & _ & _ & Hq & Hpre); [done..|].
  unfold div, SFdiv. rewrite Hcore.
  destruct (round_aux_spec (xorb sx sy) q e' l Hq Hpre) as (m1 & _ & _ & Hr).
  eauto.
Qed.

(** A quotient of positive values is at most [1] when the dividend is at most
    the divisor. *)
Lemma div_le_one (mx my : positive) (ex ey : Z) :
  -1074 ≤ ex → -1074 ≤ ey →
  mag mx ex ≤ mag my ey →
  le (div (S754_finite false mx ex) (S754_finite false my ey)) (of_Z 1) = true.
Proof.
  intros Hex Hey Hle.
  destruct (div_core_spec (Z.pos mx) ex (Z.pos my) ey) as
    (q & e' & l & s & r & Hcore & Hs & He' & Hdiv & Hr & Hl & Hq & Hpre); [done..|].
  unfold div, SFdiv. rewrite Hcore. simpl xorb.
  change (of_Z 1) with (S754_finite false 4503599627370496 (-52)).
  set (K := s + (ey + 1074) + 1074).
  assert (HeK : 0 ≤ e' + K) by (unfold K; lia).
  assert (HK : 0 ≤ K) by (unfold K; lia).
  (* q * 2^e' <= 1, strictly when the division leaves a remainder *)
  set (Y := Z.pos my * 2 ^ (ey + 1074)).
  assert (HYm : mag my ey = Y) by done.
  assert (Hkey : Y * (q * 2 ^ (e' + K)) + r * 2 ^ (ey + 1074) * 2 ^ (e' + K)
                 = mag mx ex * 2 ^ K).
  { unfold mag, Y.
    replace (Z.pos mx * 2 ^ (ex + 1074) * 2 ^ K)
      with ((Z.pos mx * 2 ^ s) * (2 ^ (ey + 1074) * 2 ^ (e' + K))).
    - rewrite Hdiv. ring.
    - rewrite <- !Z.mul_assoc. f_equal.
      rewrite <- (Z.pow_add_r 2 (ey + 1074) (e' + K)) by lia.
      rewrite <- (Z.pow_add_r 2 s) by lia.
      rewrite <- (Z.pow_add_r 2 (ex + 1074)) by lia.
      f_equal. unfold K. lia. }
  assert (Hone : Z.pos 4503599627370496 * 2 ^ (-52 + K) = 2 ^ K).
  { change (Z.pos 4503599627370496) with (2 ^ 52).
    rewrite <- (Z.pow_add_r 2 52 (-52 + K)) by lia. f_equal. lia. }
  assert (Hp1 : 0 < 2 ^ (ey + 1074)) by (apply Z.pow_pos_nonneg; lia).
  assert (Hp2 : 0 < 2 ^ (e' + K)) by (apply Z.pow_pos_nonneg; lia).
  assert (Hp3 : 0 < 2 ^ K) by (apply Z.pow_pos_nonneg; lia).
  assert (HY : 0 < Y) by (unfold Y; lia).
  assert (Hrem : 0 ≤ r * 2 ^ (ey + 1074) * 2 ^ (e' + K))
    by (apply Z.mul_nonneg_nonneg; [apply Z.mul_nonneg_nonneg|]; lia).
  assert (HAY : mag mx ex * 2 ^ K ≤ Y * 2 ^ K) by (apply Z.mul_le_mono_nonneg_r; lia).
  apply (round_aux_le q e' l _ _ K); [done|done|done|lia|lia| |]; rewrite Hone.
  - apply (Z.mul_le_mono_pos_l _ _ Y); lia.
  - intros Hne. assert (r ≠ 0) by (intros ->; apply Hne, Hl; done).
    assert (0 < r * 2 ^ (ey + 1074) * 2 ^ (e' + K))
      by (apply Z.mul_pos_pos; [apply Z.mul_pos_pos|]; lia).
    apply (Z.mul_lt_mono_pos_l Y); lia.
Qed.


(** *** Integers and percentages *)

Lemma of_Z_spec (n : Z) :
  0 < n < 2 ^ 53 →
  ∃ (m : positive) (e : Z),
    of_Z n = S754_finite false m e
    ∧ bounded prec emax m e = true
    ∧ mag m e = n * 2 ^ 1074.
Proof.
  intros Hn. destruct n as [|p|p]; try lia. unfold of_Z. simpl binary_normalize.
  destruct (binary_round_spec false p 0) as (m1 & Hr & Hhi & _).
  set (E := fexp prec emax (dig (Z.pos p) + 0)) in *.
  assert (Hd : dig (Z.pos p) ≤ 53) by (apply dig_lt_pow; lia).
  destruct (dig_bounds (Z.pos p)) as (Hd0 & _); [lia|].
  assert (HE : -52 ≤ E ≤ 0) by (unfold E; rewrite fexp_eq; lia).
  rewrite Hhi in Hr by lia.
  assert (Hval : Z.pos p * 2 ^ (0 - E) * 2 ^ (E + 1074) = Z.pos p * 2 ^ 1074).
  { rewrite <- Z.mul_assoc, <- Z.pow_add_r by lia. do 2 f_equal. lia. }
  destruct Hr as [[Hz _]|[(_ & _ & Hinf)|(_ & m2 & e2 & -> & Hb & Hmag)]].
  - assert (0 < 2 ^ (0 - E)) by (apply Z.pow_pos_nonneg; lia). nia.
  - rewrite Hval in Hinf. change (2 ^ 2098) with (2 ^ 1024 * 2 ^ 1074) in Hinf.
    assert (0 < 2 ^ 1074) by done. assert (2 ^ 53 < 2 ^ 1024) by done. nia.
  - exists m2, e2. split; [done|]. split; [done|]. unfold mag. lia.
Qed.

Lemma mul_le_hundred (mx : positive) (ex : Z) :
  bounded prec emax mx ex = true → mag mx ex ≤ 2 ^ 1074 →
  le zero (mul (S754_finite false mx ex) (of_Z 100)) = true
  ∧ le (mul (S754_finite false mx ex) (of_Z 100)) (of_Z 100) = true.
Proof.
  intros Hb Hle. pose proof (bounded_elim _ _ Hb) as (Hex & _ & _).
  change (of_Z 100) with (S754_finite false 7036874417766400 (-46)).
  unfold mul, SFmul. simpl xorb.
  assert (Hpre : roundable (Z.pos (mx * 7036874417766400)) (ex + -46)).
  { unfold roundable. rewrite fexp_eq.
    assert (52 < dig (Z.pos (mx * 7036874417766400))); [|lia].
    apply dig_ge_pow; [lia|]. rewrite Pos2Z.inj_mul.
    change (2 ^ 52) with 4503599627370496. lia. }
  split.
  - destruct (round_aux_spec false (Z.pos (mx * 7036874417766400)) (ex + -46) loc_Exact)
      as (m1 & _ & _ & Hr); [done|done|].
    exact (rounded_nonneg _ _ _ Hr).
  - apply (round_aux_le _ _ _ _ _ (1074 + 46)); [done|done|done|lia|lia| |done].
    replace (ex + -46 + (1074 + 46)) with (ex + 1074) by lia.
    change (-46 + (1074 + 46)) with 1074. rewrite Pos2Z.inj_mul.
    unfold mag in Hle. generalize dependent (2 ^ (ex + 1074)).
    generalize dependent (2 ^ 1074). intros. nia.
Qed.

(** [(w / t) * 100] for natural numbers [w <= t], [0 < t < 2^53]. *)
Lemma percentage_range (w t : nat) :
  (w ≤ t)%nat → (0 < t)%nat → Z.of_nat t < 2 ^ 53 →
  le zero (mul (div (of_nat w) (of_nat t)) (of_Z 100)) = true
  ∧ le (mul (div (of_nat w) (of_nat t)) (of_Z 100)) (of_Z 100) = true.
Proof.
  intros Hwt Ht Hbig. unfold of_nat.
  destruct (of_Z_spec (Z.of_nat t)) as (mt & et & -> & Hbt & Hmt); [lia|].
  destruct (Nat.eq_dec w 0%nat) as [->|Hw]; [done|].
  destruct (of_Z_spec (Z.of_nat w)) as (mw & ew & -> & Hbw & Hmw); [lia|].
  pose proof (bounded_elim _ _ Hbt) as (Het & _ & _).
  pose proof (bounded_elim _ _ Hbw) as (Hew & _ & _).
  assert (Hone : le (div (S754_finite false mw ew) (S754_finite false mt et)) (of_Z 1)
                 = true).
  { apply div_le_one; [lia|lia|]. rewrite Hmw, Hmt.
    apply Z.mul_le_mono_nonneg_r; [done|lia]. }
  destruct (div_rounded false false mw mt ew et) as (m1 & E & Hr). simpl xorb in Hr.
  destruct Hr as [[_ Hd]|[(_ & Hd & _)|(_ & m2 & e2 & Hd & Hb & _)]];
    rewrite Hd in *; [done|done|].
  apply mul_le_hundred; [done|].
  apply (le_units (S754_finite false m2 e2) (of_Z 1)) in Hone; done.
Qed.

(** *** Every parsed number is a well-formed value *)

Lemma binary_normalize_valid (m e : Z) (s : bool) :
  valid (binary_normalize prec emax m e s) = true.
Proof.
  destruct m as [|p|p]; simpl; [done| |].
  - destruct (binary_round_spec false p e) as (m1 & Hr & _). exact (rounded_valid _ _ _ _ Hr).
  - destruct (binary_round_spec true p e) as (m1 & Hr & _). exact (rounded_valid _ _ _ _ Hr).
Qed.

Lemma of_decimal_valid (neg : bool) (m e : Z) : valid (Builtin.of_decimal neg m e) = true.
Proof.
  unfold Builtin.of_decimal. destruct m as [|p|p]; [done| |done].
  destruct (0 <=? e); [apply binary_normalize_valid|].
  destruct (div_rounded neg false p (Z.to_pos (10 ^ (- e))) 0 0) as (m1 & E & Hr).
  exact (rounded_valid _ _ _ _ Hr).
Qed.

Lemma parseFloat_valid (s : string) : valid (parseFloat s) = true.
Proof.
  unfold parseFloat.
  repeat match goal with
  | |- context [let '(_, _) := ?x in _] => destruct x
  | |- context [if ?b then _ else _] => destruct b
  end; try done; apply of_decimal_valid.
Qed.

Lemma or_zero_valid (x : number) : valid x = true → valid (or_zero x) = true.
Proof. unfold or_zero. by destruct (truthy x). Qed.

Lemma or_zero_not_nan (x : number) : isNaN (or_zero x) = false.
Proof. by destruct x. Qed.

Lemma parse_field_valid (pred : SheetRow) (k : string) : valid (parse_field pred k) = true.
Proof. apply or_zero_valid, parseFloat_valid. Qed.

Lemma parse_field_not_nan (pred : SheetRow) (k : string) : isNaN (parse_field pred k) = false.
Proof. apply or_zero_not_nan. Qed.

End NumberFacts.

(** * Facts about the sort *)

Module SortFacts.
Import Number NumberFacts Spec.

Lemma lt_le (x y : number) : lt x y = true → le x y = true.
Proof. unfold lt, le, SFltb, SFleb. by destruct (SFcompare x y) as [[]|]. Qed.

Lemma eq_eq_not_lt (x y e : number) :
  eq x e = true → eq y e = true → lt x y = false.
Proof.
  unfold eq, lt, SFeqb, SFltb.
  destruct x as [[]|[]| |[] m1 e1], y as [[]|[]| |[] m2 e2], e as [[]|[]| |[] m3 e3];
    simpl; try congruence; cmp_cases.
Qed.

Section Sorting.
Context {A : Type} (key : A → number).

(** The comparator [(a, b) => key(b) - key(a)]. *)
Let cmp (a b : A) : number := sub (key b) (key a).

Lemma after_lt (x y : A) :
  keyed key x → keyed key y → after cmp x y = lt (key x) (key y).
Proof. intros [Vx Nx] [Vy Ny]. by apply sub_gt_zero. Qed.

Lemma insert_perm (x : A) (l : list A) : insert cmp x l ≡ₚ x :: l.
Proof.
  induction l as [|y l IH]; simpl; [done|].
  destruct (after cmp x y); [|done]. rewrite IH. apply Permutation_swap.
Qed.

Lemma sort_perm (l : list A) : sort cmp l ≡ₚ l.
Proof.
  induction l as [|x l IH]; simpl; [done|]. by rewrite insert_perm, IH.
Qed.

Lemma sort_length (l : list A) : length (sort cmp l) = length l.
Proof. by rewrite sort_perm. Qed.

Lemma elem_of_sort (x : A) (l : list A) : x ∈ sort cmp l ↔ x ∈ l.
Proof. by rewrite sort_perm. Qed.

Lemma insert_hd_rel (R : A → A → Prop) (a x : A) (l : list A) :
  R a x → HdRel R a l → HdRel R a (insert cmp x l).
Proof.
  intros Hax Hal. destruct l as [|y l]; simpl; [by constructor|].
  destruct (after cmp x y); constructor; [by inversion Hal|done].
Qed.

Lemma insert_sorted (x : A) (l : list A) :
  keyed key x → Forall (keyed key) l →
  Sorted (λ a b, ge (key a) (key b) = true) l →
  Sorted (λ a b, ge (key a) (key b) = true) (insert cmp x l).
Proof.
  intros Hx Hl Hs. induction l as [|y l IH]; simpl.
  - repeat constructor.
  - apply Forall_cons in Hl as [Hy Hl]. apply Sorted_inv in Hs as [Hs Hhd].
    rewrite (after_lt x y Hx Hy). destruct (lt (key x) (key y)) eqn:Hlt.
    + constructor; [by apply IH|]. apply insert_hd_rel; [|done].
      by apply lt_le.
    + constructor; [by constructor|]. constructor.
      destruct Hx as [_ Nx], Hy as [_ Ny].
      rewrite (lt_nge _ _ Nx Ny) in Hlt. by apply negb_false_iff in Hlt.
Qed.

Lemma sort_keyed (l : list A) : Forall (keyed key) l → Forall (keyed key) (sort cmp l).
Proof. by rewrite sort_perm. Qed.

Lemma sort_descending (l : list A) :
  Forall (keyed key) l → descending key (sort cmp l).
Proof.
  intros Hl. apply Sorted_StronglySorted.
  { intros a b c Hab Hbc. exact (le_trans _ _ _ Hbc Hab). }
  induction l as [|x l IH]; simpl; [constructor|].
  apply Forall_cons in Hl as [Hx Hl].
  apply insert_sorted; [done|by apply sort_keyed|by apply IH].
Qed.

(** A later element that satisfies [P] is not inserted behind an element
    that satisfies [P]: the elements selected by [P] keep their order. *)
Lemma insert_filter (P : A → Prop) `{!∀ a, Decision (P a)} (x : A) (l : list A) :
  (P x → ∀ y, y ∈ l → after cmp x y = true → ¬ P y) →
  filter P (insert cmp x l) = filter P (x :: l).
Proof.
  induction l as [|y l IH]; intros Hskip; simpl; [done|].
  destruct (after cmp x y) eqn:Hafter; [|done].
  rewrite filter_cons, IH.
  - rewrite !filter_cons. destruct (decide (P x)) as [Px|]; [|done].
    destruct (decide (P y)) as [Py|]; [|done].
    exfalso. apply (Hskip Px y); [left|done|done].
  - intros Px z Hz. apply Hskip; [done|by right].
Qed.

Lemma sort_ties_in_order (l : list A) :
  Forall (keyed key) l → ties_in_order key l (sort cmp l).
Proof.
  intros Hl e. induction l as [|x l IH]; simpl; [done|].
  apply Forall_cons in Hl as [Hx Hl]. rewrite insert_filter.
  - rewrite !filter_cons, IH by done. done.
  - intros Hxe y Hy Hafter Hye.
    assert (keyed key y) as Ky.
    { eapply Forall_forall; [by apply sort_keyed|done]. }
    rewrite (after_lt x y Hx Ky) in Hafter.
    by rewrite (eq_eq_not_lt _ _ e Hxe Hye) in Hafter.
Qed.

End Sorting.

End SortFacts.

(** * Facts about the program *)

Module ProgramFacts.
Import Number NumberFacts SortFacts Spec.

Lemma ge_zero_not_nan (e : number) : ge e zero = true → isNaN e = false.
Proof. by destruct e. Qed.

Lemma ge_mono (a b : Z) (e : number) :
  le (of_Z a) (of_Z b) = true → ge e (of_Z b) = true → ge e (of_Z a) = true.
Proof. intros Hab Hb. exact (le_trans _ _ _ Hab Hb). Qed.

Lemma lt_of_Z (e : number) (c : Z) :
  isNaN e = false → lt e (of_Z c) = negb (ge e (of_Z c)).
Proof.
  intros He. apply lt_nge; [done|]. unfold of_Z.
  destruct c as [|p|p]; simpl; [done| |].
  - destruct (binary_round_spec false p 0) as (m1 & Hr & _). exact (rounded_not_nan _ _ _ _ Hr).
  - destruct (binary_round_spec true p 0) as (m1 & Hr & _). exact (rounded_not_nan _ _ _ _ Hr).
Qed.

Lemma band_of_flags (e : number) :
  ge e zero = true →
  ∃ g12 g9 g7 g5 g2 : bool,
    ge e (of_Z 12) = g12 ∧ ge e (of_Z 9) = g9 ∧ ge e (of_Z 7) = g7
    ∧ ge e (of_Z 5) = g5 ∧ ge e (of_Z 2) = g2 ∧ ge e (of_Z 0) = true
    ∧ lt e (of_Z 12) = negb g12 ∧ lt e (of_Z 9) = negb g9 ∧ lt e (of_Z 7) = negb g7
    ∧ lt e (of_Z 5) = negb g5 ∧ lt e (of_Z 2) = negb g2
    ∧ (g12 = true → g9 = true) ∧ (g9 = true → g7 = true)
    ∧ (g7 = true → g5 = true) ∧ (g5 = true → g2 = true).
Proof.
  intros H0. pose proof (ge_zero_not_nan e H0) as Hn.
  exists (ge e (of_Z 12)), (ge e (of_Z 9)), (ge e (of_Z 7)), (ge e (of_Z 5)), (ge e (of_Z 2)).
  rewrite !lt_of_Z by done. repeat split; try done; by apply ge_mono.
Qed.


(** The cases of the five tests that their monotonicity leaves. *)
Ltac band_cases g12 g9 g7 g5 g2 M12 M9 M7 M5 :=
  destruct g12, g9, g7, g5, g2;
  try (specialize (M12 eq_refl); discriminate M12);
  try (specialize (M9 eq_refl); discriminate M9);
  try (specialize (M7 eq_refl); discriminate M7);
  try (specialize (M5 eq_refl); discriminate M5).


Lemma band_bounds_values :
  band_bounds "12+" = Some (12, None) ∧ band_bounds "9-12" = Some (9, Some 12)
  ∧ band_bounds "7-9" = Some (7, Some 9) ∧ band_bounds "5-7" = Some (5, Some 7)
  ∧ band_bounds "2-5" = Some (2, Some 5) ∧ band_bounds "0-2" = Some (0, Some 2).
Proof. by vm_compute. Qed.

(** *** The pipelines *)

Lemma processPredictions_unfold (predictions : list SheetRow) :
  Page.processPredictions predictions
  = sort Page.by_edge_desc
      (Page.toOpportunity <$> filter (λ pred, Page.valid_pred pred) predictions).
Proof. by destruct predictions. Qed.

Lemma page_keyed (l : list SheetRow) :
  Forall (keyed Page.edge) (Page.toOpportunity <$> l).
Proof.
  apply Forall_fmap, Forall_forall. intros p _. split.
  - apply parse_field_valid.
  - apply parse_field_not_nan.
Qed.

Lemma dashboard_keyed (v : Dashboard.variant) (m : number) (P : Dashboard.Opportunity → Prop)
    `{!∀ o, Decision (P o)} (l : list SheetRow) :
  Forall (keyed Dashboard.edge) (filter P (Dashboard.toOpportunity v m <$> l)).
Proof.
  apply Forall_forall. intros o Ho. apply list_elem_of_filter in Ho as [_ Ho].
  apply list_elem_of_fmap in Ho as (p & -> & _). split.
  - apply parse_field_valid.
  - apply parse_field_not_nan.
Qed.

Lemma no_line_has_line (pred : SheetRow) : no_line pred → has_line pred = false.
Proof.
  unfold has_line. intros [H|[H|[H|H]]]; rewrite H; reflexivity.
Qed.

Lemma take_not_below (team : option string) (sign : string) (line : number) :
  take team sign line ≠ "Below threshold" ∧ take team sign line ≠ "".
Proof. split; discriminate. Qed.

(** *** Counting results *)

Lemma result_counts (lit : string) (l : list SheetRow) :
  lit = "WIN" ∨ lit = "LOSS" →
  length (filter (λ bet, strict_eq (bet !! "Result") lit)
            (filter (λ bet, strict_eq (bet !! "Result") "WIN"
                            || strict_eq (bet !! "Result") "LOSS") l))
  = count_result lit l.
Proof.
  intros Hlit. unfold count_result, strict_eq. rewrite list_filter_filter.
  f_equal. apply list_filter_iff. intros r. split.
  - intros [H _]. by apply bool_decide_unpack in H.
  - intros H. split; [by apply bool_decide_pack|].
    rewrite H. destruct Hlit as [-> | ->]; by vm_compute.
Qed.

Lemma valid_count (l : list SheetRow) :
  length (filter (λ bet, strict_eq (bet !! "Result") "WIN"
                         || strict_eq (bet !! "Result") "LOSS") l)
  = (count_result "WIN" l + count_result "LOSS" l)%nat.
Proof.
  unfold count_result, strict_eq.
  rewrite (list_filter_iff _
    (λ r : SheetRow, r !! "Result" = Some "WIN" ∨ r !! "Result" = Some "LOSS")).
  - induction l as [|r l IH]; [done|].
    rewrite !filter_cons.
    destruct (decide (r !! "Result" = Some "WIN")) as [Hw|Hw],
             (decide (r !! "Result" = Some "LOSS")) as [Hl|Hl].
    + congruence.
    + rewrite decide_True by tauto. simpl. lia.
    + rewrite decide_True by tauto. simpl. lia.
    + rewrite decide_False by tauto. done.
  - intros r. rewrite orb_True, !bool_decide_spec. done.
Qed.

Lemma of_nat_gt_zero (n : nat) : gt (of_nat n) zero = (0 <? Z.of_nat n).
Proof. unfold gt, of_nat, of_Z. apply (binary_normalize_sign _ 0). lia. Qed.

Lemma calculatePerformance_unfold (coverAnalysis : list SheetRow) (currentOpps : nat) :
  Page.calculatePerformance coverAnalysis currentOpps =
    let validBets :=
      filter (λ bet, Page.is_result "WIN" bet || Page.is_result "LOSS" bet)
        coverAnalysis in
    let wins := length (filter (λ bet, Page.is_result "WIN" bet) validBets) in
    {| Page.totalBets := length validBets;
       Page.wins := wins;
       Page.losses := length (filter (λ bet, Page.is_result "LOSS" bet) validBets);
       Page.winRate :=
         if gt (of_nat (length validBets)) zero
         then mul (div (of_nat wins) (of_nat (length validBets))) (of_Z 100)
         else zero;
       Page.currentWeekOpportunities := currentOpps |}.
Proof. by destruct coverAnalysis. Qed.

Lemma page_performance (coverAnalysis : list SheetRow) (currentOpps : nat) :
  let w := count_result "WIN" coverAnalysis in
  let l := count_result "LOSS" coverAnalysis in
  Page.calculatePerformance coverAnalysis currentOpps =
    {| Page.totalBets := w + l; Page.wins := w; Page.losses := l;
       Page.winRate :=
         if decide (w + l = 0)%nat then zero
         else mul (div (of_nat w) (of_nat (w + l))) (of_Z 100);
       Page.currentWeekOpportunities := currentOpps |}.
Proof.
  intros w l. rewrite calculatePerformance_unfold. unfold Page.is_result. cbv zeta.
  rewrite !result_counts by auto. rewrite valid_count. fold w l.
  rewrite of_nat_gt_zero. f_equal.
  destruct (decide (w + l = 0)%nat) as [Hz|Hne]; [by rewrite Hz|].
  by destruct (Z.ltb_spec 0 (Z.of_nat (w + l))); [|lia].
Qed.

Lemma dashboard_performance (coverAnalysis : list SheetRow) :
  let w := count_result "WIN" coverAnalysis in
  let l := count_result "LOSS" coverAnalysis in
  Dashboard.performance coverAnalysis =
    {| Dashboard.totalBets := w + l; Dashboard.wins := w;
       Dashboard.winRate :=
         if decide (w + l = 0)%nat then zero
         else mul (div (of_nat w) (of_nat (w + l))) (of_Z 100) |}.
Proof.
  intros w l. unfold Dashboard.performance, Dashboard.is_result.
  rewrite !result_counts by auto. rewrite valid_count. fold w l.
  rewrite of_nat_gt_zero. f_equal.
  destruct (decide (w + l = 0)%nat) as [Hz|Hne]; [by rewrite Hz|].
  by destruct (Z.ltb_spec 0 (Z.of_nat (w + l))); [|lia].
Qed.

(** *** Records of a sheet *)

Lemma assign_lookup_ne (h k v : string) (obj : SheetRow) :
  h ≠ k → Route.assign h v obj !! k = obj !! k.
Proof.
  intros Hne. unfold Route.assign. case_bool_decide; [done|]. by rewrite lookup_insert_ne.
Qed.

Lemma assign_lookup_eq (h v : string) (obj : SheetRow) :
  h ≠ "__proto__" → Route.assign h v obj !! h = Some v.
Proof.
  intros Hne. unfold Route.assign. rewrite bool_decide_false by done.
  by rewrite lookup_insert_eq.
Qed.

Lemma forEach_other (headers : list string) (index : nat) (row : list string)
    (obj : SheetRow) (k : string) :
  k ∉ headers → Route.forEach headers index row obj !! k = obj !! k.
Proof.
  revert index obj. induction headers as [|h rest IH]; intros index obj Hk; [done|].
  apply not_elem_of_cons in Hk as [Hne Hk]. simpl.
  rewrite IH by done. by apply assign_lookup_ne.
Qed.

Lemma forEach_last (headers : list string) (index : nat) (row : list string)
    (obj : SheetRow) (i : nat) (h : string) :
  last_index headers i h → h ≠ "__proto__" →
  Route.forEach headers index row obj !! h = Some (or_empty (row !! (index + i)%nat)).
Proof.
  revert index obj i. induction headers as [|h0 rest IH]; intros index obj i [Hi Hlast] Hp.
  { by rewrite lookup_nil in Hi. }
  destruct i as [|i]; simpl in *.
  - injection Hi as ->. rewrite forEach_other.
    + rewrite Nat.add_0_r. by apply assign_lookup_eq.
    + intros Hin. apply list_elem_of_lookup in Hin as [j Hj].
      apply (Hlast (S j)); [lia|done].
  - rewrite (IH (S index) _ i); [by rewrite Nat.add_succ_r| |done].
    split; [done|]. intros j Hj. apply (Hlast (S j)). lia.
Qed.

Lemma forEach_proto (headers : list string) (index : nat) (row : list string)
    (obj : SheetRow) :
  Route.forEach headers index row obj !! "__proto__" = obj !! "__proto__".
Proof.
  revert index obj. induction headers as [|h rest IH]; intros index obj; [done|].
  simpl. rewrite IH. unfold Route.assign. case_bool_decide as Hh; [done|].
  by rewrite lookup_insert_ne.
Qed.

Lemma predictions_cons (headers : list string) (rows : list (list string)) :
  Route.predictions (headers :: rows) = Route.toRecord headers <$> rows.
Proof.
  unfold Route.predictions, Route.structured. simpl.
  case_bool_decide as Hlen; [by rewrite drop_0|].
  destruct rows; [done|]. simpl in Hlen. lia.
Qed.

End ProgramFacts.

(** * The claims *)

Import Number NumberFacts SortFacts Spec ProgramFacts.

(** C1: every non-negative edge value — finite or not, only NaN and the
    negative values are left out — is assigned exactly one of the six bands,
    the band whose half-open interval [lo <= e < hi] contains it, by the
    classifier of [processPredictions] (tested from the top band) and by the
    one of the dashboards (tested from the bottom band) alike; the edges
    parsed from 1.999, 2.0, 11.999 and 12.0 fall into [0-2], [2-5], [9-12]
    and [12+]. *)
Theorem C1_edge_bands_partition (e : number) :
  ge e zero = true →
  snd (Page.classify e) ∈ bands
  ∧ (∀ b : string, b ∈ bands → snd (Page.classify e) = b ↔ in_band b e)
  ∧ (∀ v : Dashboard.variant, fst (fst (Dashboard.classify v e)) = snd (Page.classify e))
  ∧ snd (Page.classify (parseFloat "1.999")) = "0-2"
  ∧ snd (Page.classify (parseFloat "2.0")) = "2-5"
  ∧ snd (Page.classify (parseFloat "11.999")) = "9-12"
  ∧ snd (Page.classify (parseFloat "12.0")) = "12+".
Proof.
  intros H0.
  destruct (band_of_flags e H0)
    as (g12 & g9 & g7 & g5 & g2 & E12 & E9 & E7 & E5 & E2 & E0
        & L12 & L9 & L7 & L5 & L2 & M12 & M9 & M7 & M5).
  destruct band_bounds_values as (B12 & B9 & B7 & B5 & B2 & B0).
  assert (Hcls : snd (Page.classify e) =
    if g12 then "12+" else if g9 then "9-12" else if g7 then "7-9"
    else if g5 then "5-7" else if g2 then "2-5" else "0-2").
  { unfold Page.classify. rewrite E12, E9, E7, E5, E2. by destruct g12, g9, g7, g5, g2. }
  split; [|split; [|split]].
  - rewrite Hcls. unfold bands.
    destruct g12, g9, g7, g5, g2; simpl; apply list_elem_of_In; simpl; tauto.
  - intros b Hb. rewrite Hcls. unfold in_band, bands in *.
    repeat (apply elem_of_cons in Hb as [->|Hb]); [..|by apply elem_of_nil in Hb];
      rewrite ?B12, ?B9, ?B7, ?B5, ?B2, ?B0;
      rewrite ?E12, ?E9, ?E7, ?E5, ?E2, ?E0, ?L12, ?L9, ?L7, ?L5, ?L2;
      band_cases g12 g9 g7 g5 g2 M12 M9 M7 M5; simpl;
      (split; [intros Heq; try discriminate Heq; done
              |intros [Ha Hc]; try discriminate Ha; try discriminate Hc; done]).
  - intros v. rewrite Hcls. unfold Dashboard.classify. rewrite L12, L9, L7, L5, L2.
    band_cases g12 g9 g7 g5 g2 M12 M9 M7 M5; reflexivity.
  - by vm_compute.
Qed.

(** The edge [3] is non-negative and lies in the band [2-5]. *)
Lemma C1_edge_bands_partition_witness :
  ge (of_Z 3) zero = true ∧ in_band "2-5" (of_Z 3).
Proof.
  split; [reflexivity|].
  apply (C1_edge_bands_partition (of_Z 3)); [reflexivity| |reflexivity].
  unfold bands. do 4 right. left.
Defined.

(** C2: every opportunity that [processPredictions] emits comes from a
    prediction record; its recommendation is "Below threshold" exactly when
    its parsed edge is below 2.0, and otherwise it is "Take <Favorite>
    -<Vegas line>" when the parsed predicted difference exceeds the parsed
    Vegas line and "Take <Underdog> +<Vegas line>" when it does not.  The
    same holds for the opportunities of the dashboards at the default
    threshold 2.0 (none of them is below the threshold). *)
Theorem C2_recommendation (predictions : list SheetRow) :
  (∀ o : Page.BettingOpportunity,
     o ∈ Page.processPredictions predictions →
     ∃ pred : SheetRow,
       pred ∈ predictions ∧ o = Page.toOpportunity pred
       ∧ (Page.betRecommendation o = "Below threshold"
          ↔ lt (Page.edge o) (of_Z 2) = true)
       ∧ (lt (Page.edge o) (of_Z 2) = false →
          Page.betRecommendation o =
            if gt (Page.ourLine o) (Page.vegasLine o)
            then take (pred !! "Favorite") "-" (Page.vegasLine o)
            else take (pred !! "Underdog") "+" (Page.vegasLine o)))
  ∧ (∀ (v : Dashboard.variant) (o : Dashboard.Opportunity),
       o ∈ Dashboard.bettingOpps v Dashboard.minEdge_default predictions →
       ∃ pred : SheetRow,
         pred ∈ predictions ∧ o = Dashboard.toOpportunity v Dashboard.minEdge_default pred
         ∧ (Dashboard.betRec o = "Below threshold"
            ↔ lt (Dashboard.edge o) (of_Z 2) = true)
         ∧ (lt (Dashboard.edge o) (of_Z 2) = false →
            Dashboard.betRec o =
              if gt (parse_field pred "Predicted Difference") (Dashboard.vegasLine o)
              then take (pred !! "Favorite") "-" (Dashboard.vegasLine o)
              else take (pred !! "Underdog") "+" (Dashboard.vegasLine o))).
Proof.
  split.
  - intros o Ho. rewrite processPredictions_unfold in Ho.
    apply elem_of_sort, list_elem_of_fmap in Ho as (pred & -> & Hp).
    apply list_elem_of_filter in Hp as [_ Hp].
    exists pred. split; [done|]. split; [done|].
    cbn [Page.toOpportunity Page.betRecommendation Page.edge Page.ourLine Page.vegasLine].
    rewrite (lt_of_Z _ 2) by apply parse_field_not_nan. unfold Page.betRec.
    destruct (ge (parse_field pred "Edge") (of_Z 2)); simpl negb.
    + split; [|intros _; by destruct (gt _ _)].
      destruct (gt _ _); simpl; split; discriminate.
    + split; [done|]. discriminate.
  - intros v o Ho. unfold Dashboard.bettingOpps in Ho.
    apply elem_of_sort, list_elem_of_filter in Ho as [Hge Ho].
    apply list_elem_of_fmap in Ho as (pred & -> & Hp).
    apply list_elem_of_filter in Hp as [_ Hp].
    exists pred. split; [done|]. split; [done|].
    apply Is_true_true in Hge. revert Hge.
    cbn [Dashboard.toOpportunity Dashboard.betRec Dashboard.edge Dashboard.vegasLine].
    unfold Dashboard.minEdge_default. rewrite (lt_of_Z _ 2) by apply parse_field_not_nan.
    unfold Dashboard.recommend. intros ->. simpl negb.
    split; [|intros _; by destruct (gt _ _)].
    destruct (gt _ _); simpl; split; discriminate.
Qed.

(** The sample record is emitted, with the favorite at minus the line. *)
Lemma C2_recommendation_witness :
  Page.toOpportunity sample ∈ Page.processPredictions [sample]
  ∧ ∃ pred : SheetRow,
      pred ∈ [sample]
      ∧ Page.betRecommendation (Page.toOpportunity sample) =
          take (pred !! "Favorite") "-" (of_Z 3).
Proof.
  assert (Hin : Page.toOpportunity sample ∈ Page.processPredictions [sample])
    by (vm_compute; left).
  split; [exact Hin|].
  destruct (C2_recommendation [sample]) as [H _].
  destruct (H (Page.toOpportunity sample) Hin) as (pred & Hp & Heq & _ & Hrec).
  exists pred. split; [exact Hp|]. exact (Hrec eq_refl).
Defined.

(** C3: the output of the Opportunity Builder is no longer than its input,
    it is a permutation of the opportunities built from the records that
    pass the filters, it is sorted by edge in descending order, and the
    opportunities of equal edge keep the relative order of their source
    records; for [processPredictions] and for the dashboards. *)
Theorem C3_sorted_stable (predictions : list SheetRow)
    (v : Dashboard.variant) (minEdge : number) :
  (let src := Page.toOpportunity <$> filter (λ pred, Page.valid_pred pred) predictions in
   let out := Page.processPredictions predictions in
   (length out ≤ length predictions)%nat
   ∧ out ≡ₚ src
   ∧ descending Page.edge out
   ∧ ties_in_order Page.edge src out)
  ∧ (let src := filter (λ bet, ge (Dashboard.edge bet) minEdge)
                  (Dashboard.toOpportunity v minEdge
                     <$> filter (λ p, has_line p) predictions) in
     let out := Dashboard.bettingOpps v minEdge predictions in
     (length out ≤ length predictions)%nat
     ∧ out ≡ₚ src
     ∧ descending Dashboard.edge out
     ∧ ties_in_order Dashboard.edge src out).
Proof.
  split; intros src out.
  - unfold out. rewrite processPredictions_unfold. fold src.
    split; [|split; [|split]].
    + rewrite (sort_length Page.edge). unfold src. rewrite length_fmap. apply length_filter.
    + apply (sort_perm Page.edge).
    + apply (sort_descending Page.edge), page_keyed.
    + apply (sort_ties_in_order Page.edge), page_keyed.
  - unfold out, Dashboard.bettingOpps. fold src.
    split; [|split; [|split]].
    + rewrite (sort_length Dashboard.edge). unfold src.
      etransitivity; [apply length_filter|]. rewrite length_fmap. apply length_filter.
    + apply (sort_perm Dashboard.edge).
    + apply (sort_descending Dashboard.edge), dashboard_keyed.
    + apply (sort_ties_in_order Dashboard.edge), dashboard_keyed.
Qed.

(** C4: a record whose Line field is missing, empty, "N/A" or "No Line
    Available" contributes nothing: the output is the one computed without
    the record, whatever its other fields are. *)
Theorem C4_no_line_excluded (before after : list SheetRow) (pred : SheetRow)
    (v : Dashboard.variant) (minEdge : number) :
  no_line pred →
  Page.processPredictions (before ++ pred :: after)
    = Page.processPredictions (before ++ after)
  ∧ Dashboard.bettingOpps v minEdge (before ++ pred :: after)
    = Dashboard.bettingOpps v minEdge (before ++ after).
Proof.
  intros Hno. apply no_line_has_line in Hno.
  rewrite !processPredictions_unfold. unfold Dashboard.bettingOpps.
  rewrite !filter_app, !filter_cons.
  rewrite (decide_False (P := Is_true (Page.valid_pred pred)))
    by (unfold Page.valid_pred; rewrite Hno; simpl; tauto).
  rewrite (decide_False (P := Is_true (has_line pred))) by (rewrite Hno; simpl; tauto).
  done.
Qed.

(** The sample record with the line "N/A" leaves the output of the sample
    unchanged. *)
Lemma C4_no_line_excluded_witness :
  Page.processPredictions [sample; <["Line" := "N/A"]> sample]
  = Page.processPredictions [sample].
Proof.
  apply (C4_no_line_excluded [sample] [] (<["Line" := "N/A"]> sample)
           Dashboard.Tabbed Dashboard.minEdge_default).
  right; right; left. reflexivity.
Defined.

(** C5: the Performance Aggregator counts the records whose Result is
    exactly "WIN" and those whose Result is exactly "LOSS", and nothing
    else; the total is the sum of the two counts; the win rate is 0 when the
    total is 0 and otherwise the percentage (wins / total) * 100, computed
    in binary64 in this order; no win and no loss give 0, three wins and one
    loss give 75. *)
Theorem C5_win_rate (coverAnalysis : list SheetRow) (currentOpps : nat) :
  let w := count_result "WIN" coverAnalysis in
  let l := count_result "LOSS" coverAnalysis in
  let m := Page.calculatePerformance coverAnalysis currentOpps in
  let d := Dashboard.performance coverAnalysis in
  Page.wins m = w ∧ Page.losses m = l ∧ Page.totalBets m = (w + l)%nat
  ∧ Dashboard.wins d = w ∧ Dashboard.totalBets d = (w + l)%nat
  ∧ Dashboard.winRate d = Page.winRate m
  ∧ ((w + l = 0)%nat → Page.winRate m = zero)
  ∧ ((w + l ≠ 0)%nat →
     Page.winRate m = mul (div (of_nat w) (of_nat (w + l))) (of_Z 100))
  ∧ (w = 3%nat → l = 1%nat → Page.winRate m = of_Z 75).
Proof.
  intros w l m d. unfold m, d.
  rewrite page_performance, dashboard_performance. fold w l. simpl.
  repeat split; try done.
  - intros ->. done.
  - intros Hne. by rewrite decide_False.
  - intros -> ->. by vm_compute.
Qed.

(** Three wins and one loss among records of other, lower-case, empty and
    missing results: 75. *)
Lemma C5_win_rate_witness :
  Page.winRate
    (Page.calculatePerformance
       [result "WIN"; result "PENDING"; result "WIN"; result "LOSS";
        result "win"; result ""; result "PUSH"; ∅; result "WIN"] 0)
  = of_Z 75.
Proof.
  apply (C5_win_rate
    [result "WIN"; result "PENDING"; result "WIN"; result "LOSS";
     result "win"; result ""; result "PUSH"; ∅; result "WIN"] 0);
    reflexivity.
Defined.

(** C6: the single record {Matchup "A vs B", Favorite "A", Underdog "B",
    Predicted Difference "7", Line "3", Edge "4"} yields exactly one
    opportunity, of band [2-5], with the recommendation "Take A -3". *)
Theorem C6_end_to_end :
  Page.processPredictions [sample] =
    [ {| Page.matchup := "A vs B"; Page.favorite := "A"; Page.underdog := "B";
         Page.ourLine := of_Z 7; Page.vegasLine := of_Z 3; Page.edge := of_Z 4;
         Page.betRecommendation := "Take A -3";
         Page.confidence := "Fade (35.7%)"; Page.edgeBand := "2-5" |} ]
  ∧ ∀ v : Dashboard.variant,
      (λ o, (Dashboard.edgeBand o, Dashboard.betRec o))
        <$> Dashboard.bettingOpps v Dashboard.minEdge_default [sample]
      = [("2-5", "Take A -3")].
Proof. split; [by vm_compute|]. intros []; by vm_compute. Qed.

(** C7 as stated fails: with the header text "A" at the indices 0 and 1 the
    record maps "A" to the cell at the index 1 only, and the header text
    "__proto__" is not mapped at all. *)
Lemma C7_counterexample :
  (∃ rec : SheetRow,
     Route.predictions [["A"; "A"]; ["x"; "y"]] = [rec]
     ∧ ¬ maps_same_index ["A"; "A"] ["x"; "y"] rec)
  ∧ (∃ rec : SheetRow,
       Route.predictions [["__proto__"]; ["x"]] = [rec]
       ∧ ¬ maps_same_index ["__proto__"] ["x"] rec).
Proof.
  split; (eexists; split; [reflexivity|]); intros H;
    specialize (H 0%nat _ eq_refl); vm_compute in H; discriminate H.
Qed.

(** C7, amended: no record for an input of zero or one row; otherwise one
    record per data row, which maps each header text other than "__proto__"
    to the cell at the index of the last occurrence of that text among the
    headers (the empty string when the row is shorter), so to the cell at
    the same index when the header texts are distinct, and maps nothing
    else. *)
Theorem C7_records_amended (data : list (list string)) :
  ((length data ≤ 1)%nat → Route.predictions data = [])
  ∧ (∀ (headers : list string) (rows : list (list string)),
       data = headers :: rows →
       length (Route.predictions data) = length rows
       ∧ ∀ (j : nat) (row : list string),
           rows !! j = Some row →
           ∃ rec : SheetRow,
             Route.predictions data !! j = Some rec
             ∧ (∀ (i : nat) (h : string),
                  last_index headers i h → h ≠ "__proto__" →
                  rec !! h = Some (or_empty (row !! i)))
             ∧ (NoDup headers → "__proto__" ∉ headers →
                maps_same_index headers row rec)
             ∧ (∀ k : string, k ∉ headers → rec !! k = None)).
Proof.
  split.
  - intros Hlen. unfold Route.predictions, Route.structured.
    rewrite bool_decide_false; [done|]. lia.
  - intros headers rows ->. rewrite predictions_cons. split; [by rewrite length_fmap|].
    intros j row Hj. exists (Route.toRecord headers row).
    split; [by rewrite list_lookup_fmap, Hj|].
    assert (Hlast : ∀ (i : nat) (h : string),
      last_index headers i h → h ≠ "__proto__" →
      Route.toRecord headers row !! h = Some (or_empty (row !! i))).
    { intros i h Hi Hp. unfold Route.toRecord. by rewrite (forEach_last _ _ _ _ i h). }
    split; [exact Hlast|]. split.
    + intros Hnd Hproto i h Hi. apply Hlast.
      * split; [done|]. intros i' Hlt Hi'.
        pose proof (NoDup_lookup _ _ _ _ Hnd Hi Hi'). lia.
      * intros ->. apply Hproto. by eapply list_elem_of_lookup_2.
    + intros k Hk. unfold Route.toRecord. by rewrite forEach_other.
Qed.

(** Three distinct headers and a row of two cells. *)
Lemma C7_records_amended_witness :
  ∃ rec : SheetRow,
    Route.predictions [["Matchup"; "Line"; "Edge"]; ["A vs B"; "3"]] !! 0%nat = Some rec
    ∧ maps_same_index ["Matchup"; "Line"; "Edge"] ["A vs B"; "3"] rec.
Proof.
  destruct (C7_records_amended [["Matchup"; "Line"; "Edge"]; ["A vs B"; "3"]]) as [_ H].
  destruct (H ["Matchup"; "Line"; "Edge"] [["A vs B"; "3"]] eq_refl) as [_ Hrows].
  destruct (Hrows 0%nat ["A vs B"; "3"] eq_refl) as (rec & Hrec & _ & Hsame & _).
  exists rec. split; [exact Hrec|]. apply Hsame.
  - repeat constructor; rewrite ?elem_of_cons, ?elem_of_nil; intuition discriminate.
  - rewrite !elem_of_cons, elem_of_nil. intuition discriminate.
Defined.

(** C8: a field that does not parse as a number is taken as 0; the edge,
    the predicted difference and the Vegas line of an opportunity are the
    fields parsed in this way (the filter of [processPredictions] lets a
    record through only if its Edge parses); and every record that passes
    the filters yields its opportunity in the output, whatever the other
    records of the batch hold: no parse stops the batch. *)
Theorem C8_failed_parse_is_zero (predictions : list SheetRow) (pred : SheetRow)
    (v : Dashboard.variant) (minEdge : number) :
  (∀ k : string,
     isNaN (parseFloat (to_string (pred !! k))) = true → parse_field pred k = zero)
  ∧ Page.edge (Page.toOpportunity pred) = parse_field pred "Edge"
  ∧ Page.ourLine (Page.toOpportunity pred) = parse_field pred "Predicted Difference"
  ∧ Page.vegasLine (Page.toOpportunity pred) = parse_field pred "Line"
  ∧ Dashboard.edge (Dashboard.toOpportunity v minEdge pred) = parse_field pred "Edge"
  ∧ Dashboard.vegasLine (Dashboard.toOpportunity v minEdge pred) = parse_field pred "Line"
  ∧ Dashboard.betRec (Dashboard.toOpportunity v minEdge pred)
    = fst (Dashboard.recommend minEdge pred (parse_field pred "Edge")
             (parse_field pred "Predicted Difference") (parse_field pred "Line"))
  ∧ (Page.valid_pred pred = true →
     isNaN (parseFloat (to_string (pred !! "Edge"))) = false)
  ∧ (pred ∈ predictions → Page.valid_pred pred = true →
     Page.toOpportunity pred ∈ Page.processPredictions predictions)
  ∧ (pred ∈ predictions → has_line pred = true →
     ge (parse_field pred "Edge") minEdge = true →
     Dashboard.toOpportunity v minEdge pred
       ∈ Dashboard.bettingOpps v minEdge predictions).
Proof.
  split; [|repeat split].
  - intros k Hnan. unfold parse_field. by destruct (parseFloat _).
  - unfold Page.valid_pred. intros Hvalid.
    apply andb_prop in Hvalid as [_ Hvalid]. by apply negb_true_iff.
  - intros Hin Hvalid. rewrite processPredictions_unfold.
    apply elem_of_sort, list_elem_of_fmap. exists pred. split; [done|].
    apply list_elem_of_filter. split; [by apply Is_true_true|done].
  - intros Hin Hline Hge. unfold Dashboard.bettingOpps.
    apply elem_of_sort, list_elem_of_filter. split; [by apply Is_true_true|].
    apply list_elem_of_fmap. exists pred. split; [done|].
    apply list_elem_of_filter. split; [by apply Is_true_true|done].
Qed.

(** A record whose line does not parse: its Vegas line is 0 and its
    opportunity is emitted. *)
Lemma C8_failed_parse_is_zero_witness :
  Page.vegasLine (Page.toOpportunity (<["Line" := "pick'em"]> sample)) = zero
  ∧ Page.toOpportunity (<["Line" := "pick'em"]> sample)
      ∈ Page.processPredictions [<["Line" := "pick'em"]> sample; sample].
Proof.
  destruct (C8_failed_parse_is_zero [<["Line" := "pick'em"]> sample; sample]
              (<["Line" := "pick'em"]> sample) Dashboard.Tabbed Dashboard.minEdge_default)
    as (Hzero & _ & _ & Hline & _ & _ & _ & _ & Hin & _).
  split.
  - rewrite Hline. apply Hzero. reflexivity.
  - apply Hin; [left|reflexivity].
Defined.

(** C9: for an array of fewer than 2^53 outcome records (the length of an
    array is below 2^32) the metrics satisfy wins + losses = totalBets, the
    counts are non-negative, the win rate lies between 0 and 100, and the
    opportunity count is passed through. *)
Theorem C9_performance_invariants (coverAnalysis : list SheetRow) (currentOpps : nat) :
  Z.of_nat (length coverAnalysis) < 2 ^ 53 →
  let m := Page.calculatePerformance coverAnalysis currentOpps in
  (Page.wins m + Page.losses m = Page.totalBets m)%nat
  ∧ (0 ≤ Page.wins m)%nat ∧ (0 ≤ Page.losses m)%nat ∧ (0 ≤ Page.totalBets m)%nat
  ∧ le zero (Page.winRate m) = true
  ∧ le (Page.winRate m) (of_Z 100) = true
  ∧ Page.currentWeekOpportunities m = currentOpps.
Proof.
  intros Hlen m. unfold m. rewrite page_performance. simpl.
  set (w := count_result "WIN" coverAnalysis). set (l := count_result "LOSS" coverAnalysis).
  split; [done|]. split; [lia|]. split; [lia|]. split; [lia|].
  assert (Htot : (w + l ≤ length coverAnalysis)%nat).
  { unfold w, l. rewrite <- valid_count. apply length_filter. }
  destruct (decide (w + l = 0)%nat) as [Hz|Hne]; [done|].
  destruct (percentage_range w (w + l)) as [Hlo Hhi]; [lia|lia|lia|]. done.
Qed.

(** Two wins and a loss: the win rate is at most 100. *)
Lemma C9_performance_invariants_witness :
  le (Page.winRate (Page.calculatePerformance
        [result "WIN"; result "LOSS"; result "WIN"; result "PENDING"] 2)) (of_Z 100)
  = true.
Proof.
  apply (C9_performance_invariants
           [result "WIN"; result "LOSS"; result "WIN"; result "PENDING"] 2).
  reflexivity.
Defined.

(** C10: every opportunity of a dashboard has an edge of at least
    [minEdge], comes from a prediction record, and carries a recommendation
    that is neither "Below threshold" nor empty; a record whose edge is not
    at least [minEdge] gets the empty recommendation while it is mapped and
    is not in the output. *)
Theorem C10_minimum_edge_filter (v : Dashboard.variant) (minEdge : number)
    (predictions : list SheetRow) :
  (∀ o : Dashboard.Opportunity,
     o ∈ Dashboard.bettingOpps v minEdge predictions →
     ge (Dashboard.edge o) minEdge = true
     ∧ Dashboard.betRec o ≠ "Below threshold"
     ∧ Dashboard.betRec o ≠ ""
     ∧ ∃ pred : SheetRow,
         pred ∈ predictions ∧ o = Dashboard.toOpportunity v minEdge pred)
  ∧ (∀ pred : SheetRow,
       ge (parse_field pred "Edge") minEdge = false →
       Dashboard.betRec (Dashboard.toOpportunity v minEdge pred) = ""
       ∧ Dashboard.toOpportunity v minEdge pred
           ∉ Dashboard.bettingOpps v minEdge predictions).
Proof.
  split.
  - intros o Ho. unfold Dashboard.bettingOpps in Ho.
    apply elem_of_sort, list_elem_of_filter in Ho as [Hge Ho].
    apply Is_true_true in Hge.
    apply list_elem_of_fmap in Ho as (pred & -> & Hp).
    apply list_elem_of_filter in Hp as [_ Hp].
    split; [done|].
    cbn [Dashboard.toOpportunity Dashboard.betRec Dashboard.edge] in *.
    unfold Dashboard.recommend. rewrite Hge.
    split; [|split]; [by destruct (gt _ _)..|]. by exists pred.
  - intros pred Hlow. split.
    + cbn [Dashboard.toOpportunity Dashboard.betRec]. unfold Dashboard.recommend.
      by rewrite Hlow.
    + intros Ho. unfold Dashboard.bettingOpps in Ho.
      apply elem_of_sort, list_elem_of_filter in Ho as [Hge _].
      apply Is_true_true in Hge.
      cbn [Dashboard.toOpportunity Dashboard.edge] in Hge. congruence.
Qed.

(** The opportunity of the sample record has an edge of at least 2. *)
Lemma C10_minimum_edge_filter_witness :
  ge (Dashboard.edge (Dashboard.toOpportunity Dashboard.Tabbed
                        Dashboard.minEdge_default sample))
     Dashboard.minEdge_default = true.
Proof.
  destruct (C10_minimum_edge_filter Dashboard.Tabbed Dashboard.minEdge_default [sample])
    as [H _].
  apply H. vm_compute. left.
Defined.

(** * Further facts about the code *)

(** * Facts about lists, filters and the sort *)

Module ListFacts.
Import Number NumberFacts SortFacts Spec.

Lemma filter_ext_elem {A} (P Q : A → Prop) `{!∀ x, Decision (P x), !∀ x, Decision (Q x)}
    (l : list A) :
  (∀ x, x ∈ l → P x ↔ Q x) → filter P l = filter Q l.
Proof.
  induction l as [|a l IH]; intros Hl; [done|].
  rewrite !filter_cons, IH.
  - destruct (decide (P a)) as [Pa|Pa], (decide (Q a)) as [Qa|Qa]; try done.
    + destruct Qa. apply (Hl a); [left|done].
    + destruct Pa. apply (Hl a); [left|done].
  - intros x Hx. apply Hl. by right.
Qed.

Lemma filter_none {A} (P : A → Prop) `{!∀ x, Decision (P x)} (l : list A) :
  Forall (λ x, ¬ P x) l → filter P l = [].
Proof.
  induction 1 as [|a l Ha _ IH]; [done|]. by rewrite filter_cons_False.
Qed.

Lemma filter_all {A} (P : A → Prop) `{!∀ x, Decision (P x)} (l : list A) :
  Forall P l → filter P l = l.
Proof.
  induction 1 as [|a l Ha _ IH]; [done|]. by rewrite filter_cons_True, IH.
Qed.

(** A sorted list splits at a test that, once it fails, fails for all
    later elements. *)
Lemma sorted_filter_split {A} (R : A → A → Prop) (P : A → Prop) `{!∀ x, Decision (P x)}
    (l : list A) :
  StronglySorted R l → (∀ a b, R a b → P b → P a) →
  filter P l ++ filter (λ a, ¬ P a) l = l.
Proof.
  intros Hs Hup. induction Hs as [|a l _ IH Ha]; [done|].
  rewrite !filter_cons. destruct (decide (P a)) as [Pa|Pa].
  - rewrite decide_False by tauto. simpl. by rewrite IH.
  - rewrite decide_True by done.
    assert (Forall (λ x, ¬ P x) l) as Hl.
    { eapply Forall_impl; [exact Ha|]. intros b Rab Pb. apply Pa. by apply (Hup a b). }
    rewrite (filter_none P l Hl), (filter_all _ l Hl). done.
Qed.

Lemma sorted_filter {A} (R : A → A → Prop) (P : A → Prop) `{!∀ x, Decision (P x)}
    (l : list A) :
  StronglySorted R l → StronglySorted R (filter P l).
Proof.
  induction 1 as [|a l _ IH Ha]; [constructor|].
  rewrite filter_cons. destruct (decide (P a)); [|done].
  constructor; [done|]. apply Forall_forall. intros b Hb.
  apply list_elem_of_filter in Hb as [_ Hb]. by eapply Forall_forall in Ha.
Qed.

Section Keyed.
Context {A : Type} (key : A → number).

Let cmp (a b : A) : number := sub (key b) (key a).

Lemma descending_split (c : number) (l : list A) :
  descending key l →
  filter (λ a, ge (key a) c) l ++ filter (λ a, ¬ ge (key a) c) l = l.
Proof.
  intros Hs. apply (sorted_filter_split _ _ l Hs).
  intros a b Hab Hb. apply Is_true_true. apply Is_true_true in Hb.
  exact (le_trans _ _ _ Hb Hab).
Qed.

Lemma descending_filter (P : A → Prop) `{!∀ x, Decision (P x)} (l : list A) :
  descending key l → descending key (filter P l).
Proof. apply sorted_filter. Qed.

(** An element that is at least every element of a list is inserted in
    front of it. *)
Lemma insert_front (x : A) (l : list A) :
  keyed key x → Forall (keyed key) l →
  Forall (λ y, ge (key x) (key y) = true) l →
  insert cmp x l = x :: l.
Proof.
  unfold cmp. intros Kx Kl Hl. destruct l as [|y l]; [done|]. simpl.
  apply Forall_cons in Kl as [Ky _]. apply Forall_cons in Hl as [Hy _].
  rewrite (after_lt key x y Kx Ky).
  destruct Kx as [_ Nx], Ky as [_ Ny]. rewrite (lt_nge _ _ Nx Ny), Hy. done.
Qed.

(** The sort and a filter commute: filtering the sorted list is sorting the
    filtered one. *)
Lemma insert_filter_sorted (P : A → Prop) `{!∀ x, Decision (P x)} (x : A) (l : list A) :
  keyed key x → Forall (keyed key) l → descending key l →
  filter P (insert cmp x l)
  = if decide (P x) then insert cmp x (filter P l) else filter P l.
Proof.
  unfold cmp. intros Kx Kl Hs. induction Hs as [|y l Hs IH Hy]; simpl.
  { rewrite filter_cons, filter_nil. by destruct (decide (P x)). }
  apply Forall_cons in Kl as [Ky Kl].
  destruct (after _ x y) eqn:Hafter.
  - rewrite !filter_cons, IH by done.
    destruct (decide (P y)); [|done].
    destruct (decide (P x)); [|done]. simpl. by rewrite Hafter.
  - rewrite !filter_cons. destruct (decide (P x)) as [Px|Px]; [|done].
    destruct (decide (P y)) as [Py|Py]; simpl; [by rewrite Hafter|].
    symmetry. apply insert_front; [done| |].
    + apply Forall_forall. intros z Hz. apply list_elem_of_filter in Hz as [_ Hz].
      by eapply Forall_forall in Kl.
    + rewrite (after_lt key x y Kx Ky) in Hafter.
      destruct Kx as [_ Nx], Ky as [_ Ny]. rewrite (lt_nge _ _ Nx Ny) in Hafter.
      apply negb_false_iff in Hafter.
      apply Forall_forall. intros z Hz. apply list_elem_of_filter in Hz as [_ Hz].
      eapply Forall_forall in Hy; [|done]. exact (le_trans _ _ _ Hy Hafter).
Qed.

Lemma sort_filter (P : A → Prop) `{!∀ x, Decision (P x)} (l : list A) :
  Forall (keyed key) l →
  filter P (sort cmp l) = sort cmp (filter P l).
Proof.
  unfold cmp. induction 1 as [|x l Kx Kl IH]; [done|]. simpl.
  rewrite insert_filter_sorted;
    [|done|by apply sort_keyed|by apply sort_descending].
  rewrite filter_cons, IH. by destruct (decide (P x)).
Qed.

End Keyed.

(** The sort commutes with a map that keeps the comparator. *)
Lemma insert_fmap {A B} (f : A → B) (cmpA : A → A → number) (cmpB : B → B → number)
    (x : A) (l : list A) :
  (∀ a b, cmpB (f a) (f b) = cmpA a b) →
  f <$> insert cmpA x l = insert cmpB (f x) (f <$> l).
Proof.
  intros Hcmp. induction l as [|y l IH]; [done|]. simpl.
  unfold after. rewrite Hcmp. destruct (gt (cmpA x y) zero); simpl; [|done].
  f_equal. exact IH.
Qed.

Lemma sort_fmap {A B} (f : A → B) (cmpA : A → A → number) (cmpB : B → B → number)
    (l : list A) :
  (∀ a b, cmpB (f a) (f b) = cmpA a b) →
  f <$> sort cmpA l = sort cmpB (f <$> l).
Proof.
  intros Hcmp. induction l as [|x l IH]; [done|].
  change (f <$> insert cmpA x (sort cmpA l) = insert cmpB (f x) (sort cmpB (f <$> l))).
  rewrite <- IH. by apply insert_fmap.
Qed.

End ListFacts.

(** * Facts about the sections of the page *)

Module ViewFacts.
Import ListFacts.

(** The band of [Page.classify] with the outcome of each of its tests and
    of the test [edge >= 2.5] of the sections. *)
Lemma page_band_cases (e : number) :
  let g12 := ge e (of_Z 12) in
  let g9 := ge e (of_Z 9) in
  let g7 := ge e (of_Z 7) in
  let g5 := ge e (of_Z 5) in
  let g25 := ge e (PageView.literal 25 (-1)) in
  let g2 := ge e (of_Z 2) in
  (snd (Page.classify e) = "12+"
   ∧ g12 = true ∧ g9 = true ∧ g7 = true ∧ g5 = true ∧ g25 = true ∧ g2 = true)
  ∨ (snd (Page.classify e) = "9-12"
     ∧ g12 = false ∧ g9 = true ∧ g7 = true ∧ g5 = true ∧ g25 = true ∧ g2 = true)
  ∨ (snd (Page.classify e) = "7-9"
     ∧ g12 = false ∧ g9 = false ∧ g7 = true ∧ g5 = true ∧ g25 = true ∧ g2 = true)
  ∨ (snd (Page.classify e) = "5-7"
     ∧ g12 = false ∧ g9 = false ∧ g7 = false ∧ g5 = true ∧ g25 = true ∧ g2 = true)
  ∨ (snd (Page.classify e) = "2-5"
     ∧ g12 = false ∧ g9 = false ∧ g7 = false ∧ g5 = false ∧ g2 = true)
  ∨ (snd (Page.classify e) = "0-2"
     ∧ g12 = false ∧ g9 = false ∧ g7 = false ∧ g5 = false ∧ g25 = false ∧ g2 = false).
Proof.
  cbv zeta. unfold Page.classify.
  assert (M12 : ge e (of_Z 12) = true → ge e (of_Z 9) = true) by by apply ge_mono.
  assert (M9 : ge e (of_Z 9) = true → ge e (of_Z 7) = true) by by apply ge_mono.
  assert (M7 : ge e (of_Z 7) = true → ge e (of_Z 5) = true) by by apply ge_mono.
  assert (M5 : ge e (of_Z 5) = true → ge e (PageView.literal 25 (-1)) = true).
  { intros H. by apply (le_trans (PageView.literal 25 (-1)) (of_Z 5) e). }
  assert (M2 : ge e (PageView.literal 25 (-1)) = true → ge e (of_Z 2) = true).
  { intros H. by apply (le_trans (of_Z 2) (PageView.literal 25 (-1)) e). }
  destruct (ge e (of_Z 12)) eqn:E12.
  { rewrite M12, M9, M7, M5, M2 by auto. left. done. }
  destruct (ge e (of_Z 9)) eqn:E9.
  { rewrite M9, M7, M5, M2 by auto. right; left. done. }
  destruct (ge e (of_Z 7)) eqn:E7.
  { rewrite M7, M5, M2 by auto. do 2 right; left. done. }
  destruct (ge e (of_Z 5)) eqn:E5.
  { rewrite M5, M2 by auto. do 3 right; left. done. }
  destruct (ge e (of_Z 2)) eqn:E2.
  { do 4 right; left. done. }
  do 5 right. repeat split; try done.
  destruct (ge e (PageView.literal 25 (-1))); [|done]. specialize (M2 eq_refl). congruence.
Qed.

Lemma page_elem (predictions : list SheetRow) (o : Page.BettingOpportunity) :
  o ∈ Page.processPredictions predictions →
  ∃ pred, pred ∈ predictions ∧ Page.valid_pred pred = true ∧ o = Page.toOpportunity pred.
Proof.
  rewrite processPredictions_unfold. intros Ho.
  apply elem_of_sort, list_elem_of_fmap in Ho as (pred & -> & Hp).
  apply list_elem_of_filter in Hp as [Hv Hp]. apply Is_true_true in Hv. by exists pred.
Qed.

Lemma page_band (predictions : list SheetRow) (o : Page.BettingOpportunity) :
  o ∈ Page.processPredictions predictions →
  Page.edgeBand o = snd (Page.classify (Page.edge o)).
Proof. intros Ho. by destruct (page_elem _ _ Ho) as (pred & _ & _ & ->). Qed.

Lemma page_descending (predictions : list SheetRow) :
  descending Page.edge (Page.processPredictions predictions).
Proof. rewrite processPredictions_unfold. apply sort_descending, page_keyed. Qed.

(** The cases of [page_band_cases] for an element of a list, with the
    band of the element in place of the classification of its edge. *)
Ltac elem_cases Hb key o Ho :=
  let Hband := fresh "Hband" in
  let Hcls := fresh "Hcls" in
  pose proof (Hb o Ho) as Hband;
  destruct (page_band_cases (key o))
    as [(Hcls & ? & ? & ? & ? & ? & ?)|[(Hcls & ? & ? & ? & ? & ? & ?)
       |[(Hcls & ? & ? & ? & ? & ? & ?)|[(Hcls & ? & ? & ? & ? & ? & ?)
       |[(Hcls & ? & ? & ? & ? & ?)|(Hcls & ? & ? & ? & ? & ? & ?)]]]]];
  rewrite Hcls in Hband.

(** A list sorted by edge in descending order, of elements that carry the
    band of their edge, is its six groups one after the other. *)
Section Bands.
Context {A : Type} (key : A → number) (band : A → string) (l : list A).
Context (Hd : descending key l).
Context (Hb : ∀ o, o ∈ l → band o = snd (Page.classify (key o))).

Lemma bands_split :
  filter (λ o, band o = "12+") l ++ filter (λ o, band o = "9-12") l
  ++ filter (λ o, band o = "7-9") l ++ filter (λ o, band o = "5-7") l
  ++ filter (λ o, band o = "2-5") l ++ filter (λ o, band o = "0-2") l = l.
Proof using Hd Hb.
  pose proof (descending_split key (of_Z 12) l Hd) as E12.
  set (N12 := filter (λ o, ¬ ge (key o) (of_Z 12)) l) in *.
  assert (D12 : descending key N12) by by apply descending_filter.
  pose proof (descending_split key (of_Z 9) N12 D12) as E9.
  set (N9 := filter (λ o, ¬ ge (key o) (of_Z 9)) N12) in *.
  assert (D9 : descending key N9) by by apply descending_filter.
  pose proof (descending_split key (of_Z 7) N9 D9) as E7.
  set (N7 := filter (λ o, ¬ ge (key o) (of_Z 7)) N9) in *.
  assert (D7 : descending key N7) by by apply descending_filter.
  pose proof (descending_split key (of_Z 5) N7 D7) as E5.
  set (N5 := filter (λ o, ¬ ge (key o) (of_Z 5)) N7) in *.
  assert (D5 : descending key N5) by by apply descending_filter.
  pose proof (descending_split key (of_Z 2) N5 D5) as E2.
  set (N2 := filter (λ o, ¬ ge (key o) (of_Z 2)) N5) in *.
  assert (B12 : filter (λ o, band o = "12+") l = filter (λ o, ge (key o) (of_Z 12)) l).
  { apply filter_ext_elem. intros o Ho. elem_cases Hb key o Ho;
      rewrite Hband; (split; [intros Heq|intros Hg]);
      try apply Is_true_true; try apply Is_true_true in Hg; congruence. }
  assert (B9 : filter (λ o, band o = "9-12") l = filter (λ o, ge (key o) (of_Z 9)) N12).
  { unfold N12. rewrite list_filter_filter.
    apply filter_ext_elem. intros o Ho. rewrite !Is_true_true.
    elem_cases Hb key o Ho; rewrite Hband; (split; [intros Heq|intros Hc; destruct_and?]);
      repeat split; congruence. }
  assert (B7 : filter (λ o, band o = "7-9") l = filter (λ o, ge (key o) (of_Z 7)) N9).
  { unfold N9, N12. rewrite !list_filter_filter.
    apply filter_ext_elem. intros o Ho. rewrite !Is_true_true.
    elem_cases Hb key o Ho; rewrite Hband; (split; [intros Heq|intros Hc; destruct_and?]);
      repeat split; congruence. }
  assert (B5 : filter (λ o, band o = "5-7") l = filter (λ o, ge (key o) (of_Z 5)) N7).
  { unfold N7, N9, N12. rewrite !list_filter_filter.
    apply filter_ext_elem. intros o Ho. rewrite !Is_true_true.
    elem_cases Hb key o Ho; rewrite Hband; (split; [intros Heq|intros Hc; destruct_and?]);
      repeat split; congruence. }
  assert (B2 : filter (λ o, band o = "2-5") l = filter (λ o, ge (key o) (of_Z 2)) N5).
  { unfold N5, N7, N9, N12. rewrite !list_filter_filter.
    apply filter_ext_elem. intros o Ho. rewrite !Is_true_true.
    elem_cases Hb key o Ho; rewrite Hband;
      (split; [intros Heq|intros Hc; destruct_and?]);
      repeat split; congruence. }
  assert (B0 : filter (λ o, band o = "0-2") l = N2).
  { unfold N2, N5, N7, N9, N12. rewrite !list_filter_filter.
    apply filter_ext_elem. intros o Ho. rewrite !Is_true_true.
    elem_cases Hb key o Ho; rewrite Hband;
      (split; [intros Heq|intros Hc; destruct_and?]);
      repeat split; congruence. }
  rewrite B12, B9, B7, B5, B2, B0.
  by rewrite E2, E5, E7, E9, E12.
Qed.

End Bands.

Section PageBands.
Context (l : list Page.BettingOpportunity).
Context (Hb : ∀ o, o ∈ l → Page.edgeBand o = snd (Page.classify (Page.edge o))).

Lemma high_edge_in_band (band : string) :
  band ∈ ["12+"; "9-12"; "7-9"; "5-7"] →
  PageView.highEdgeOpps (PageView.inBand band l) = PageView.inBand band l.
Proof using Hb.
  intros Hband. apply filter_all, Forall_forall. intros o Ho.
  apply list_elem_of_filter in Ho as [Hob Ho]. apply Is_true_true.
  elem_cases Hb Page.edge o Ho; try done; exfalso;
    rewrite <- Hob, Hband0 in Hband; apply list_elem_of_In in Hband; simpl in Hband;
    repeat (destruct Hband as [Hband|Hband]; [discriminate Hband|]); done.
Qed.

Lemma high_edge_not_in_band (band : string) :
  band ∈ ["2-5"; "0-2"] →
  PageView.highEdgeOpps (PageView.inBand band l) = [].
Proof using Hb.
  intros Hband. apply filter_none, Forall_forall. intros o Ho.
  apply list_elem_of_filter in Ho as [Hob Ho]. rewrite Is_true_true.
  elem_cases Hb Page.edge o Ho; try congruence; exfalso;
    rewrite <- Hob, Hband0 in Hband; apply list_elem_of_In in Hband; simpl in Hband;
    repeat (destruct Hband as [Hband|Hband]; [discriminate Hband|]); done.
Qed.

Lemma value_bets_all (band : string) :
  band ∈ ["12+"; "9-12"; "7-9"; "5-7"] →
  PageView.valueBets (PageView.inBand band l) = length (PageView.inBand band l).
Proof using Hb.
  intros Hband. unfold PageView.valueBets. f_equal.
  apply filter_all, Forall_forall. intros o Ho.
  apply list_elem_of_filter in Ho as [Hob Ho]. apply Is_true_true.
  elem_cases Hb Page.edge o Ho; try done; exfalso;
    rewrite <- Hob, Hband0 in Hband; apply list_elem_of_In in Hband; simpl in Hband;
    repeat (destruct Hband as [Hband|Hband]; [discriminate Hband|]); done.
Qed.

Lemma value_bets_none :
  PageView.valueBets (PageView.inBand "0-2" l) = 0%nat.
Proof using Hb.
  unfold PageView.valueBets. rewrite filter_none; [done|].
  apply Forall_forall. intros o Ho.
  apply list_elem_of_filter in Ho as [Hob Ho]. rewrite Is_true_true.
  elem_cases Hb Page.edge o Ho; congruence.
Qed.

End PageBands.

End ViewFacts.

(** * Facts about ties and about the pipelines *)

Module PipelineFacts.
Import ListFacts.

Lemma ge_refl (x : number) : isNaN x = false → ge x x = true.
Proof.
  unfold ge, SFleb. destruct x as [[]|[]| |[] m e]; simpl; try congruence; intros _;
    cmp_cases.
Qed.

Lemma eq_refl_number (x : number) : isNaN x = false → eq x x = true.
Proof.
  unfold eq, SFeqb. destruct x as [[]|[]| |[] m e]; simpl; try congruence; intros _;
    cmp_cases.
Qed.

Lemma ge_antisym (x y : number) : ge x y = true → ge y x = true → eq x y = true.
Proof.
  unfold ge, eq, SFleb, SFeqb.
  destruct x as [[]|[]| |[] m e], y as [[]|[]| |[] m' e']; simpl; try congruence;
    cmp_cases.
Qed.

Section Ties.
Context {A : Type} (key : A → number).

Local Abbreviation tie e := (λ a : A, eq (key a) e = true).

Lemma tie_self (x : A) (l : list A) :
  keyed key x → filter (tie (key x)) (x :: l) = x :: filter (tie (key x)) l.
Proof.
  intros [_ Nx]. rewrite filter_cons_True; [done|]. by apply eq_refl_number.
Qed.

(** The first element of a descending list is at least every element. *)
Lemma descending_head (x y : A) (l : list A) :
  keyed key x → descending key (x :: l) → y ∈ x :: l → ge (key x) (key y) = true.
Proof.
  intros [_ Nx] Hs Hy. apply StronglySorted_inv in Hs as [_ Hs].
  apply elem_of_cons in Hy as [->|Hy]; [by apply ge_refl|].
  by eapply Forall_forall in Hs.
Qed.

(** Two descending lists with the same elements of each key, in the same
    order, are the same list. *)
Lemma ties_unique (l1 l2 : list A) :
  Forall (keyed key) l1 → Forall (keyed key) l2 →
  descending key l1 → descending key l2 →
  (∀ e, filter (tie e) l1 = filter (tie e) l2) →
  l1 = l2.
Proof.
  intros K1. revert l2. induction K1 as [|x t1 Kx K1 IH]; intros l2 K2 D1 D2 Ht.
  { destruct K2 as [|y t2 Ky K2]; [done|].
    specialize (Ht (key y)). rewrite (tie_self y t2 Ky) in Ht. discriminate Ht. }
  destruct K2 as [|y t2 Ky K2].
  { specialize (Ht (key x)). rewrite (tie_self x t1 Kx) in Ht. discriminate Ht. }
  assert (Hx : x ∈ y :: t2).
  { pose proof (Ht (key x)) as Hf. rewrite (tie_self x t1 Kx) in Hf.
    assert (x ∈ filter (tie (key x)) (y :: t2)) as Hin by (rewrite <- Hf; left).
    by apply list_elem_of_filter in Hin as [_ Hin]. }
  assert (Hy : y ∈ x :: t1).
  { pose proof (Ht (key y)) as Hf. rewrite (tie_self y t2 Ky) in Hf.
    assert (y ∈ filter (tie (key y)) (x :: t1)) as Hin by (rewrite Hf; left).
    by apply list_elem_of_filter in Hin as [_ Hin]. }
  assert (Hyx : eq (key y) (key x) = true).
  { apply ge_antisym.
    - exact (descending_head y x t2 Ky D2 Hx).
    - exact (descending_head x y t1 Kx D1 Hy). }
  assert (x = y) as <-.
  { pose proof (Ht (key x)) as Hf. rewrite (tie_self x t1 Kx) in Hf.
    rewrite filter_cons_True in Hf by done. by injection Hf. }
  apply StronglySorted_inv in D1 as [D1 _]. apply StronglySorted_inv in D2 as [D2 _].
  f_equal. apply IH; [done..|].
  intros e. specialize (Ht e). rewrite !filter_cons in Ht.
  destruct (decide (eq (key x) e = true)); [by injection Ht|done].
Qed.

End Ties.

(** *** Filters and maps *)

Lemma filter_fmap {A B} (f : A → B) (P : B → Prop) `{!∀ y, Decision (P y)} (l : list A) :
  filter P (f <$> l) = f <$> filter (λ x, P (f x)) l.
Proof.
  induction l as [|a l IH]; [done|]. rewrite fmap_cons, !filter_cons, IH.
  by destruct (decide (P (f a))).
Qed.

Lemma fmap_filter_ext {A B} (f g : A → B) (P : A → Prop) `{!∀ x, Decision (P x)}
    (l : list A) :
  (∀ x, P x → f x = g x) → f <$> filter P l = g <$> filter P l.
Proof.
  intros Hfg. induction l as [|a l IH]; [done|]. rewrite filter_cons.
  destruct (decide (P a)) as [Pa|]; [|done]. rewrite !fmap_cons, IH. f_equal. by apply Hfg.
Qed.

(** *** Edges of at least 2 *)

(** A record whose parsed edge is at least 2 has an Edge cell that is not
    empty and parses to a number. *)
Lemma edge_ge_valid (p : SheetRow) :
  ge (parse_field p "Edge") (of_Z 2) = true →
  truthy_str (p !! "Edge") && negb (isNaN (parseFloat (to_string (p !! "Edge")))) = true.
Proof.
  unfold parse_field. destruct (p !! "Edge") as [s|]; [|by vm_compute].
  cbn [to_string truthy_str]. case_bool_decide as Hs.
  - destruct (parseFloat s); done.
  - subst s. by vm_compute.
Qed.

Lemma valid_iff_has_line (p : SheetRow) :
  ge (parse_field p "Edge") (of_Z 2) = true →
  Page.valid_pred p = has_line p.
Proof.
  intros Hge. unfold Page.valid_pred. rewrite <- andb_assoc, (edge_ge_valid p Hge).
  by rewrite andb_true_r.
Qed.

(** The two classifiers name the same band. *)
Lemma dashboard_band (v : Dashboard.variant) (e : number) :
  isNaN e = false → fst (fst (Dashboard.classify v e)) = snd (Page.classify e).
Proof.
  intros He. unfold Dashboard.classify, Page.classify. rewrite !lt_of_Z by done.
  assert (M12 : ge e (of_Z 12) = true → ge e (of_Z 9) = true) by by apply ge_mono.
  assert (M9 : ge e (of_Z 9) = true → ge e (of_Z 7) = true) by by apply ge_mono.
  assert (M7 : ge e (of_Z 7) = true → ge e (of_Z 5) = true) by by apply ge_mono.
  assert (M5 : ge e (of_Z 5) = true → ge e (of_Z 2) = true) by by apply ge_mono.
  destruct (ge e (of_Z 12)), (ge e (of_Z 9)), (ge e (of_Z 7)), (ge e (of_Z 5)),
    (ge e (of_Z 2)); try reflexivity;
    try (specialize (M12 eq_refl); discriminate M12);
    try (specialize (M9 eq_refl); discriminate M9);
    try (specialize (M7 eq_refl); discriminate M7);
    try (specialize (M5 eq_refl); discriminate M5).
Qed.

Lemma shown_agree (v : Dashboard.variant) (p : SheetRow) :
  ge (parse_field p "Edge") (of_Z 2) = true →
  Shown.of_dashboard (Dashboard.toOpportunity v Dashboard.minEdge_default p)
  = Shown.of_page (Page.toOpportunity p).
Proof.
  intros Hge. unfold Shown.of_dashboard, Shown.of_page.
  cbn [Dashboard.toOpportunity Dashboard.betRec Dashboard.edge Dashboard.vegasLine
       Dashboard.edgeBand Page.toOpportunity Page.betRecommendation Page.edge
       Page.vegasLine Page.edgeBand].
  rewrite dashboard_band by apply parse_field_not_nan.
  unfold Dashboard.recommend, Page.betRec, Dashboard.minEdge_default. rewrite Hge.
  by destruct (gt _ _).
Qed.

(** The opportunities of the themed and of the tabbed dashboard, before
    the sort. *)
Lemma dashboard_filter (v : Dashboard.variant) (m : number) (l : list SheetRow) :
  filter (λ bet, ge (Dashboard.edge bet) m) (Dashboard.toOpportunity v m <$> l)
  = Dashboard.toOpportunity v m <$> filter (λ p, ge (parse_field p "Edge") m) l.
Proof. by rewrite filter_fmap. Qed.

End PipelineFacts.

(** * Facts about the tabbed dashboard *)

Module TabbedFacts.
Import ListFacts ViewFacts PipelineFacts.

(** *** Groups *)

Lemma push_lookup (band : string) (g : Tabbed.Game) (groups : gmap string (list Tabbed.Game))
    (b : string) :
  default [] (Tabbed.push band g groups !! b)
  = default [] (groups !! b) ++ (if decide (band = b) then [g] else []).
Proof.
  unfold Tabbed.push. destruct (decide (band = b)) as [->|Hne].
  - by rewrite lookup_insert_eq.
  - by rewrite lookup_insert_ne, app_nil_r.
Qed.

Lemma foldl_push {X} (c : X → bool) (band : X → string) (mk : X → Tabbed.Game)
    (l : list X) (groups : gmap string (list Tabbed.Game)) (b : string) :
  default []
    (foldl (λ groups x, if c x then Tabbed.push (band x) (mk x) groups else groups)
       groups l !! b)
  = default [] (groups !! b) ++ (mk <$> filter (λ x, c x ∧ band x = b) l).
Proof.
  revert groups. induction l as [|x l IH]; intros groups; simpl.
  { by rewrite app_nil_r. }
  rewrite IH, filter_cons. destruct (c x) eqn:Hc.
  - rewrite push_lookup. destruct (decide (band x = b)) as [Hb|Hb].
    + rewrite decide_True by (by split). by rewrite <- app_assoc.
    + rewrite decide_False by (by intros [_ ?]). by rewrite app_nil_r.
  - rewrite decide_False; [done|]. by intros [? _].
Qed.

(** All games of the groups: the opportunities, then the predictions below
    the threshold. *)
Lemma bandGroups_lookup (predictions : list SheetRow) (b : string) :
  default [] (Tabbed.bandGroups predictions !! b)
  = filter (λ g, Tabbed.edgeBand g = b)
      ((Tabbed.ofOpportunity <$> Tabbed.bettingOpps predictions)
       ++ (Tabbed.lowEdgeGame
             <$> filter (λ p, lt (parse_field p "Edge") Tabbed.minEdge)
                   (filter (λ p, has_line p) predictions))).
Proof.
  unfold Tabbed.bandGroups. cbv zeta.
  rewrite (foldl_push (λ p, lt (parse_field p "Edge") Tabbed.minEdge)
             (λ p, Tabbed.edgeBandOf (parse_field p "Edge")) Tabbed.lowEdgeGame).
  rewrite (foldl_push (λ _, true) Dashboard.edgeBand Tabbed.ofOpportunity).
  rewrite lookup_empty. cbn [default app]. rewrite filter_app, !filter_fmap. f_equal.
  - f_equal. apply list_filter_iff. intros bet. cbn [Tabbed.ofOpportunity Tabbed.edgeBand].
    split; [by intros [_ ?]|by split].
  - f_equal. symmetry.
    rewrite (list_filter_filter (λ p, Tabbed.edgeBand (Tabbed.lowEdgeGame p) = b)).
    apply list_filter_iff. intros p.
    cbn [Tabbed.lowEdgeGame Tabbed.edgeBand]. tauto.
Qed.

Lemma sections_concat (m : gmap string (list Tabbed.Game)) (bs : list string) :
  concat (snd <$> omap (λ band,
            match m !! band with
            | None | Some [] => None
            | Some games => Some (band, sort Tabbed.by_edge_desc games)
            end) bs)
  = concat ((λ band, sort Tabbed.by_edge_desc (default [] (m !! band))) <$> bs).
Proof.
  induction bs as [|b bs IH]; [done|]. cbn [omap list_omap fmap list_fmap concat].
  rewrite <- IH. by destruct (m !! b) as [[|g games]|].
Qed.

(** *** A partition by a finite classification *)

Section Partition.
Context {X : Type} (band : X → string).

Lemma groups_skip (x : X) (l : list X) (bs : list string) :
  band x ∉ bs →
  concat ((λ b, filter (λ y, band y = b) (x :: l)) <$> bs)
  = concat ((λ b, filter (λ y, band y = b) l) <$> bs).
Proof.
  induction bs as [|b bs IH]; intros Hx; [done|].
  apply not_elem_of_cons in Hx as [Hne Hx].
  cbn [fmap list_fmap concat]. rewrite filter_cons_False by done. f_equal. by apply IH.
Qed.

Lemma groups_cons (x : X) (l : list X) (bs : list string) :
  NoDup bs → band x ∈ bs →
  concat ((λ b, filter (λ y, band y = b) (x :: l)) <$> bs)
  ≡ₚ x :: concat ((λ b, filter (λ y, band y = b) l) <$> bs).
Proof.
  induction bs as [|b bs IH]; intros Hnd Hx; [by apply elem_of_nil in Hx|].
  apply NoDup_cons in Hnd as [Hb Hnd]. cbn [fmap list_fmap concat].
  destruct (decide (band x = b)) as [Heq|Hne].
  - rewrite filter_cons_True by done.
    rewrite (groups_skip x l bs) by (by rewrite Heq). done.
  - rewrite filter_cons_False by done.
    apply elem_of_cons in Hx as [?|Hx]; [done|].
    rewrite (IH Hnd Hx). by rewrite Permutation_middle.
Qed.

Lemma groups_partition (l : list X) (bs : list string) :
  NoDup bs → Forall (λ x, band x ∈ bs) l →
  concat ((λ b, filter (λ y, band y = b) l) <$> bs) ≡ₚ l.
Proof.
  intros Hnd Hl. induction Hl as [|x l Hx _ IH].
  - clear Hnd. induction bs as [|b bs IH]; [done|]. done.
  - by rewrite (groups_cons x l bs Hnd Hx), IH.
Qed.

End Partition.

Lemma concat_sorted_perm (f : string → list Tabbed.Game) (bs : list string) :
  concat ((λ b, sort Tabbed.by_edge_desc (f b)) <$> bs) ≡ₚ concat (f <$> bs).
Proof.
  induction bs as [|b bs IH]; [done|]. cbn [fmap list_fmap concat].
  by rewrite (sort_perm Tabbed.edge), IH.
Qed.

(** *** Bands *)

Lemma edgeBandOf_bands (e : number) : Tabbed.edgeBandOf e ∈ Tabbed.bandOrder.
Proof.
  unfold Tabbed.edgeBandOf, Tabbed.bandOrder. apply list_elem_of_In.
  repeat (destruct (lt e _)); simpl; tauto.
Qed.

Lemma classify_tabbed (e : number) :
  fst (fst (Dashboard.classify Dashboard.Tabbed e)) = Tabbed.edgeBandOf e
  ∧ snd (fst (Dashboard.classify Dashboard.Tabbed e)) = Tabbed.bandEmojiOf (Tabbed.edgeBandOf e).
Proof.
  unfold Dashboard.classify, Tabbed.edgeBandOf.
  repeat (destruct (lt e _)); by split.
Qed.


(** The key of a game is a number. *)
Lemma game_of_opportunity (predictions : list SheetRow) (bet : Dashboard.Opportunity) :
  bet ∈ Tabbed.bettingOpps predictions →
  ∃ p, p ∈ predictions ∧ has_line p = true
       ∧ ge (parse_field p "Edge") Tabbed.minEdge = true
       ∧ bet = Dashboard.toOpportunity Dashboard.Tabbed Tabbed.minEdge p.
Proof.
  unfold Tabbed.bettingOpps, Dashboard.bettingOpps. intros Hbet.
  apply elem_of_sort, list_elem_of_filter in Hbet as [Hge Hbet].
  apply list_elem_of_fmap in Hbet as (p & -> & Hp).
  apply list_elem_of_filter in Hp as [Hl Hp].
  exists p. repeat split; try done; by apply Is_true_true.
Qed.


(** *** Cards *)

Lemma card_of_opportunity (p : SheetRow) :
  ge (parse_field p "Edge") Tabbed.minEdge = true →
  Tabbed.shown_of_game
    (Tabbed.ofOpportunity (Dashboard.toOpportunity Dashboard.Tabbed Tabbed.minEdge p))
  = Tabbed.shown_of_card (Tabbed.scheduleCard p).
Proof.
  intros Hge. unfold Tabbed.shown_of_game, Tabbed.shown_of_card, Tabbed.scheduleCard.
  cbn [Tabbed.ofOpportunity Dashboard.toOpportunity Tabbed.pred Tabbed.edge Tabbed.edgeBand
       Tabbed.bandEmoji Tabbed.betRec Dashboard.pred Dashboard.edge Dashboard.edgeBand
       Dashboard.bandEmoji Dashboard.betRec].
  destruct (classify_tabbed (parse_field p "Edge")) as [-> ->].
  unfold Dashboard.recommend. rewrite Hge. by destruct (gt _ _).
Qed.

Lemma card_of_low (p : SheetRow) :
  lt (parse_field p "Edge") Tabbed.minEdge = true →
  Tabbed.shown_of_game (Tabbed.lowEdgeGame p) = Tabbed.shown_of_card (Tabbed.scheduleCard p).
Proof.
  intros Hlt. unfold Tabbed.shown_of_game, Tabbed.shown_of_card, Tabbed.scheduleCard.
  assert (Hge : ge (parse_field p "Edge") Tabbed.minEdge = false).
  { unfold Tabbed.minEdge in *. rewrite lt_of_Z in Hlt by apply parse_field_not_nan.
    by apply negb_true_iff in Hlt. }
  rewrite Hge. done.
Qed.



(** All games, before they are grouped. *)
Lemma games_keyed_band (predictions : list SheetRow) (g : Tabbed.Game) :
  g ∈ (Tabbed.ofOpportunity <$> Tabbed.bettingOpps predictions)
      ++ (Tabbed.lowEdgeGame
            <$> filter (λ p, lt (parse_field p "Edge") Tabbed.minEdge)
                  (filter (λ p, has_line p) predictions)) →
  keyed Tabbed.edge g ∧ Tabbed.edgeBand g = snd (Page.classify (Tabbed.edge g)).
Proof.
  intros Hg.
  apply elem_of_app in Hg as [Hg|Hg]; apply list_elem_of_fmap in Hg as (x & -> & Hx).
  - destruct (game_of_opportunity _ _ Hx) as (p & _ & _ & _ & ->).
    cbn [Tabbed.ofOpportunity Tabbed.edgeBand Tabbed.edge Dashboard.toOpportunity
         Dashboard.edgeBand Dashboard.edge].
    split; [split; [apply parse_field_valid|apply parse_field_not_nan]|].
    apply dashboard_band, parse_field_not_nan.
  - cbn [Tabbed.lowEdgeGame Tabbed.edgeBand Tabbed.edge].
    split; [split; [apply parse_field_valid|apply parse_field_not_nan]|].
    rewrite <- (proj1 (classify_tabbed _)). apply dashboard_band, parse_field_not_nan.
Qed.

End TabbedFacts.

(** * Facts about the route *)

Module RouteFacts.
Import ListFacts PipelineFacts.

Lemma structured_eq (h : nat) (data : list (list string)) :
  Route.structured h data
  = Route.toRecord (default [] (data !! h)) <$> drop (h + 1) data.
Proof.
  unfold Route.structured. case_bool_decide as Hlen; [done|].
  rewrite drop_ge by lia. done.
Qed.

(** The keys of a record are the headers, whatever the length of the row. *)
Lemma forEach_keys (headers : list string) (index : nat) (row : list string)
    (obj : SheetRow) (k : string) :
  is_Some (Route.forEach headers index row obj !! k)
  ↔ (k ∈ headers ∧ k ≠ "__proto__") ∨ is_Some (obj !! k).
Proof.
  revert index obj. induction headers as [|h rest IH]; intros index obj; simpl.
  { split; [by right|]. intros [[Hk _]|Hk]; [by apply elem_of_nil in Hk|done]. }
  rewrite IH. unfold Route.assign. case_bool_decide as Hp.
  - subst h. split.
    + intros [[Hk Hne]|Hk]; [left; split; [by right|done]|by right].
    + intros [[Hk Hne]|Hk]; [|by right]. left. split; [|done].
      apply elem_of_cons in Hk as [?|Hk]; [congruence|done].
  - destruct (decide (h = k)) as [->|Hne].
    + rewrite lookup_insert_eq. split; [|by right].
      intros _. left. split; [by left|done].
    + rewrite lookup_insert_ne by done. split.
      * intros [[Hk Hk']|Hk]; [left; split; [by right|done]|by right].
      * intros [[Hk Hk']|Hk]; [|by right]. left. split; [|done].
        apply elem_of_cons in Hk as [?|Hk]; [congruence|done].
Qed.

Lemma toRecord_keys (headers row : list string) (k : string) :
  is_Some (Route.toRecord headers row !! k) ↔ k ∈ headers ∧ k ≠ "__proto__".
Proof.
  unfold Route.toRecord. rewrite forEach_keys, lookup_empty. split.
  - intros [?|Hk]; [done|]. by destruct Hk.
  - by left.
Qed.

Lemma toRecord_missing (headers row : list string) (k : string) :
  k ∉ headers → Route.toRecord headers row !! k = None.
Proof. intros Hk. unfold Route.toRecord. by rewrite forEach_other. Qed.

Lemma toRecord_cell (headers row : list string) (i : nat) (k : string) :
  last_index headers i k → k ≠ "__proto__" →
  Route.toRecord headers row !! k = Some (or_empty (row !! i)).
Proof. intros Hi Hk. unfold Route.toRecord. by rewrite (forEach_last _ _ _ _ i k). Qed.

Lemma or_empty_eq (cell : option string) (lit : string) :
  lit ≠ "" → or_empty cell = lit ↔ cell = Some lit.
Proof.
  intros Hlit. destruct cell as [s|]; simpl; [|split; congruence].
  case_bool_decide as Hs; split; congruence.
Qed.

(** The counts of the results, read off the rows of the sheet. *)
Lemma count_result_rows (headers : list string) (rows : list (list string))
    (i : nat) (lit : string) :
  last_index headers i "Result" → lit ≠ "" →
  count_result lit (Route.toRecord headers <$> rows)
  = length (filter (λ row : list string, row !! i = Some lit) rows).
Proof.
  intros Hi Hlit. unfold count_result. rewrite filter_fmap, length_fmap. f_equal.
  apply list_filter_iff. intros row.
  rewrite (toRecord_cell headers row i "Result" Hi) by done.
  rewrite <- (or_empty_eq (row !! i) lit Hlit). split; congruence.
Qed.

Lemma count_result_none (headers : list string) (rows : list (list string)) (lit : string) :
  "Result" ∉ headers → count_result lit (Route.toRecord headers <$> rows) = 0%nat.
Proof.
  intros Hk. unfold count_result. rewrite filter_fmap, length_fmap, filter_none; [done|].
  apply Forall_forall. intros row _. by rewrite toRecord_missing.
Qed.

(** *** The private key *)

Lemma unescape_head (a : ascii) (s : string) :
  ∃ c t, Credentials.unescape (String a s) = String c t ∧ (c = a ∨ c = "010"%char).
Proof.
  destruct s as [|b s]; simpl; [by eexists _, _; split; [|left]|].
  case_bool_decide; eexists _, _; (split; [reflexivity|]); [by right|by left].
Qed.

Lemma unescape_facts (s : string) :
  (Credentials.escaped (Credentials.unescape s) = false
   ∧ (Credentials.escaped s = false → Credentials.unescape s = s)
   ∧ (String.length (Credentials.unescape s) ≤ String.length s)%nat)
  ∧ ∀ a : ascii,
      Credentials.escaped (Credentials.unescape (String a s)) = false
      ∧ (Credentials.escaped (String a s) = false
         → Credentials.unescape (String a s) = String a s)
      ∧ (String.length (Credentials.unescape (String a s)) ≤ String.length (String a s))%nat.
Proof.
  induction s as [|b s [(IH1 & IH2 & IH3) IHa]].
  { split; [done|]. intros a. done. }
  split; [apply IHa|]. intros a.
  change (Credentials.unescape (String a (String b s)))
    with (if bool_decide (a = "\"%char ∧ b = "n"%char)
          then String "010"%char (Credentials.unescape s)
          else String a (Credentials.unescape (String b s))).
  change (Credentials.escaped (String a (String b s)))
    with (bool_decide (a = "\"%char ∧ b = "n"%char) || Credentials.escaped (String b s)).
  destruct (IHa b) as (IHb1 & IHb2 & IHb3).
  case_bool_decide as Hm.
  - repeat split.
    + destruct (Credentials.unescape s) as [|c t] eqn:Hu; [done|].
      change (bool_decide ("010"%char = "\"%char ∧ c = "n"%char)
              || Credentials.escaped (String c t) = false).
      rewrite IH1. by rewrite bool_decide_false by (intros [? _]; discriminate).
    + discriminate.
    + cbn [String.length] in *. lia.
  - repeat split.
    + destruct (unescape_head b s) as (c & t & Hu & Hc).
      change (Credentials.escaped (String a (Credentials.unescape (String b s))) = false).
      rewrite Hu in IHb1 |- *.
      change (bool_decide (a = "\"%char ∧ c = "n"%char)
              || Credentials.escaped (String c t) = false).
      rewrite IHb1, orb_false_r. apply bool_decide_false. intros [-> ->].
      destruct Hc as [<-|Hc]; [by apply Hm|discriminate Hc].
    + intros He. f_equal. apply IHb2. exact He.
    + cbn [String.length] in *. lia.
Qed.

End RouteFacts.

(** * Facts about the state of the sections and the colours of the cards *)

Module StateFacts.
Import ListFacts PipelineFacts.

Lemma isExpanded_toggle (b band : string) (prev : gmap string bool) :
  PageView.isExpanded (PageView.toggleBand b prev) band
  = if decide (b = band) then negb (PageView.isExpanded prev band)
    else PageView.isExpanded prev band.
Proof.
  unfold PageView.toggleBand. unfold PageView.isExpanded at 1.
  destruct (decide (b = band)) as [->|Hne].
  - by rewrite lookup_insert_eq.
  - by rewrite lookup_insert_ne.
Qed.

Lemma border_yellow (neon : bool) (e : number) :
  fst (Themed.cardColors neon (fst (fst (Dashboard.classify Dashboard.Themed e))))
    = "border-yellow-500"
  ↔ lt e (of_Z 5) = true.
Proof.
  unfold Dashboard.classify.
  destruct (lt e (of_Z 2)) eqn:E2.
  { rewrite (lt_le_trans e (of_Z 2) (of_Z 5) E2) by done. done. }
  destruct (lt e (of_Z 5)); [done|].
  repeat (destruct (lt e _)); split; discriminate.
Qed.

End StateFacts.

(** * Further properties of the code *)

Import ListFacts ViewFacts PipelineFacts TabbedFacts RouteFacts StateFacts.

(** X1: the six groups of [groupedOpportunities], one after the other in the
    order of the page (from [12+] down to [0-2]), are the list of
    opportunities itself: every opportunity is in exactly one group, each
    group keeps the descending order, and no opportunity of a lower band
    comes before one of a higher band. *)
Theorem X1_groups_are_consecutive (predictions : list SheetRow) :
  let opportunities := Page.processPredictions predictions in
  concat (snd <$> PageView.groupedOpportunities opportunities) = opportunities.
Proof.
  intros opps. unfold PageView.groupedOpportunities. cbn [fmap list_fmap snd concat].
  rewrite app_nil_r. apply (bands_split Page.edge Page.edgeBand).
  - apply page_descending.
  - apply page_band.
Qed.

(** X2: the high-edge opportunities ([edge >= 5]) are the first four groups
    one after the other, and they are a prefix of the list of opportunities:
    what follows them are the groups [2-5] and [0-2]. *)
Theorem X2_high_edge_prefix (predictions : list SheetRow) :
  let opportunities := Page.processPredictions predictions in
  let groups := PageView.groupedOpportunities opportunities in
  PageView.highEdgeOpps opportunities = concat (snd <$> firstn 4 groups)
  ∧ opportunities = PageView.highEdgeOpps opportunities ++ concat (snd <$> skipn 4 groups).
Proof.
  intros opps groups.
  pose proof (page_band predictions) as Hb. fold opps in Hb.
  assert (Hsplit : PageView.inBand "12+" opps ++ PageView.inBand "9-12" opps
    ++ PageView.inBand "7-9" opps ++ PageView.inBand "5-7" opps
    ++ PageView.inBand "2-5" opps ++ PageView.inBand "0-2" opps = opps)
    by exact (bands_split Page.edge Page.edgeBand opps (page_descending predictions) Hb).
  assert (Hhigh : PageView.highEdgeOpps opps
    = PageView.inBand "12+" opps ++ PageView.inBand "9-12" opps
      ++ PageView.inBand "7-9" opps ++ PageView.inBand "5-7" opps).
  { rewrite <- Hsplit at 1. unfold PageView.highEdgeOpps. rewrite !filter_app.
    fold (PageView.highEdgeOpps (PageView.inBand "12+" opps)).
    fold (PageView.highEdgeOpps (PageView.inBand "9-12" opps)).
    fold (PageView.highEdgeOpps (PageView.inBand "7-9" opps)).
    fold (PageView.highEdgeOpps (PageView.inBand "5-7" opps)).
    fold (PageView.highEdgeOpps (PageView.inBand "2-5" opps)).
    fold (PageView.highEdgeOpps (PageView.inBand "0-2" opps)).
    rewrite !(high_edge_in_band opps Hb)
      by (apply list_elem_of_In; simpl; tauto).
    rewrite !(high_edge_not_in_band opps Hb)
      by (apply list_elem_of_In; simpl; tauto).
    by rewrite !app_nil_r. }
  split.
  - rewrite Hhigh. unfold groups, PageView.groupedOpportunities.
    cbn [firstn fmap list_fmap snd concat]. by rewrite app_nil_r.
  - rewrite Hhigh. unfold groups, PageView.groupedOpportunities.
    cbn [skipn fmap list_fmap snd concat]. rewrite app_nil_r.
    rewrite <- Hsplit at 1. by rewrite <- !app_assoc.
Qed.

(** X3: every section of the page belongs to one of the six bands and shows
    the opportunities of that band, at least one; its count of value bets
    ([edge >= 2.5]) is at most the number of its opportunities, equals it in
    the bands from [5-7] up, and is zero in the band [0-2]. *)
Theorem X3_sections (predictions : list SheetRow)
    (band : string) (bandOpps : list Page.BettingOpportunity) (valueBets : nat) :
  (band, bandOpps, valueBets)
    ∈ PageView.bandSections (Page.processPredictions predictions) →
  band ∈ bands
  ∧ bandOpps ≠ []
  ∧ bandOpps = PageView.inBand band (Page.processPredictions predictions)
  ∧ (valueBets ≤ length bandOpps)%nat
  ∧ (band ∈ ["12+"; "9-12"; "7-9"; "5-7"] → valueBets = length bandOpps)
  ∧ (band = "0-2" → valueBets = 0%nat).
Proof.
  set (opps := Page.processPredictions predictions).
  pose proof (page_band predictions) as Hb. fold opps in Hb.
  intros Hin. unfold PageView.bandSections in Hin.
  apply list_elem_of_omap in Hin as ([band' bandOpps'] & Hg & Hsome).
  assert (bandOpps' ≠ [] ∧ band' = band ∧ bandOpps' = bandOpps
          ∧ valueBets = PageView.valueBets bandOpps) as (Hne & -> & -> & ->).
  { destruct bandOpps'; [discriminate Hsome|]. by injection Hsome as -> <- <-. }
  assert (band ∈ bands ∧ bandOpps = PageView.inBand band opps) as [Hband ->].
  { unfold PageView.groupedOpportunities in Hg. apply list_elem_of_In in Hg. simpl in Hg.
    unfold bands.
    repeat (destruct Hg as [Hg|Hg];
            [injection Hg as <- <-; split; [apply list_elem_of_In; simpl; tauto|done]|]).
    done. }
  repeat split; try done.
  - unfold PageView.valueBets. apply length_filter.
  - intros Hhi. by apply value_bets_all.
  - intros ->. by apply value_bets_none.
Qed.

(** The sample record, of edge 4, makes the section of the band [2-5],
    with one value bet. *)
Lemma X3_sections_witness :
  ("2-5", [Page.toOpportunity sample], 1%nat)
    ∈ PageView.bandSections (Page.processPredictions [sample])
  ∧ "2-5" ∈ bands.
Proof.
  assert (Hin : ("2-5", [Page.toOpportunity sample], 1%nat)
                  ∈ PageView.bandSections (Page.processPredictions [sample]))
    by (vm_compute; left).
  split; [exact Hin|]. exact (proj1 (X3_sections [sample] _ _ _ Hin)).
Defined.

(** X4: the line shown under an opportunity in a section is never the
    text "Below threshold" that [processPredictions] computes: from an edge
    of 2.5 up it is the recommendation to take the favorite or the underdog,
    and below 2.5 it is "No betting value (edge too small)", also for an
    edge from 2 up, where the recommendation exists.  The list of the
    earlier copy of the page shows the recommendation from an edge of 2 up
    and "Below betting threshold" below. *)
Theorem X4_shown_recommendation (pred : SheetRow) :
  let o := Page.toOpportunity pred in
  let recommendation :=
    if gt (Page.ourLine o) (Page.vegasLine o)
    then take (pred !! "Favorite") "-" (Page.vegasLine o)
    else take (pred !! "Underdog") "+" (Page.vegasLine o) in
  PageView.shownRecommendation o
  = (if ge (Page.edge o) (PageView.literal 25 (-1))
     then "🎯 " +:+ recommendation
     else "No betting value (edge too small)")
  ∧ PageView.listedRecommendation o
    = (if ge (Page.edge o) (of_Z 2) then recommendation else "Below betting threshold")
  ∧ (Page.betRecommendation o = "Below threshold"
     ↔ PageView.listedRecommendation o = "Below betting threshold").
Proof.
  intros o recommendation. unfold PageView.shownRecommendation, PageView.listedRecommendation.
  unfold recommendation, o.
  cbn [Page.toOpportunity Page.betRecommendation Page.edge Page.ourLine Page.vegasLine].
  unfold Page.betRec.
  destruct (page_band_cases (parse_field pred "Edge"))
    as [(_ & _ & _ & _ & _ & -> & ->)|[(_ & _ & _ & _ & _ & -> & ->)
       |[(_ & _ & _ & _ & _ & -> & ->)|[(_ & _ & _ & _ & _ & -> & ->)
       |[(_ & _ & _ & _ & _ & ->)|(_ & _ & _ & _ & _ & -> & ->)]]]]];
    repeat split; try done; destruct (gt _ _); discriminate.
Qed.

(** X5: for every edge, whatever it is, the band that [processPredictions]
    assigns has an emoji of its own and an entry of its own in the table of
    past performance, and the percentage in the confidence label of the
    opportunity is the percentage of that entry; the style of the band is
    the default gray one for the band [0-2] and for no other. *)
Theorem X5_band_tables_agree (e : number) :
  let confidence := fst (Page.classify e) in
  let band := snd (Page.classify e) in
  PageView.getEdgeBandEmoji band ≠ "⚫"
  ∧ (PageView.getEdgeBandStyle band = "bg-gray-100 border-gray-500 text-gray-800"
     ↔ band = "0-2")
  ∧ ∃ (label record : string) (percentage : number),
      PageView.getEdgeBandPerformance band = PageView.Entry record percentage
      ∧ record ≠ "0-0"
      ∧ confidence = label +:+ " (" +:+ Builtin.toString percentage +:+ "%)".
Proof.
  intros confidence band. unfold confidence, band, Page.classify.
  split; [|split].
  - repeat (destruct (ge e _)); discriminate.
  - repeat (destruct (ge e _)); (split; [intros Hs|intros Hb]);
      try discriminate Hs; try discriminate Hb; reflexivity.
  - destruct (ge e (of_Z 12));
      [exists "Elite"; eexists; eexists; split; [reflexivity|]; split;
         [discriminate|by vm_compute]|].
    destruct (ge e (of_Z 9));
      [exists "Strong"; eexists; eexists; split; [reflexivity|]; split;
         [discriminate|by vm_compute]|].
    destruct (ge e (of_Z 7));
      [exists "Good"; eexists; eexists; split; [reflexivity|]; split;
         [discriminate|by vm_compute]|].
    destruct (ge e (of_Z 5));
      [exists "Weak"; eexists; eexists; split; [reflexivity|]; split;
         [discriminate|by vm_compute]|].
    destruct (ge e (of_Z 2));
      exists "Fade"; eexists; eexists; (split; [reflexivity|]); split;
         try discriminate; by vm_compute.
Qed.

(** X6: the list of opportunities is the only list that is a permutation
    of the opportunities built from the accepted records, is sorted by edge
    in descending order and keeps the opportunities of equal edge in the
    order of their records; so it is what every stable sort returns for the
    comparator [(a, b) => b.edge - a.edge], not only the one of the model.
    For [processPredictions] and for the dashboards. *)
Theorem X6_sorted_output_unique (predictions : list SheetRow)
    (v : Dashboard.variant) (minEdge : number) :
  (∀ out : list Page.BettingOpportunity,
     let src := Page.toOpportunity <$> filter (λ pred, Page.valid_pred pred) predictions in
     out ≡ₚ src → descending Page.edge out → ties_in_order Page.edge src out →
     out = Page.processPredictions predictions)
  ∧ (∀ out : list Dashboard.Opportunity,
       let src :=
         filter (λ bet, ge (Dashboard.edge bet) minEdge)
           (Dashboard.toOpportunity v minEdge <$> filter (λ p, has_line p) predictions) in
       out ≡ₚ src → descending Dashboard.edge out → ties_in_order Dashboard.edge src out →
       out = Dashboard.bettingOpps v minEdge predictions).
Proof.
  split.
  - intros out src Hperm Hdesc Hties. rewrite processPredictions_unfold. fold src.
    assert (Ksrc : Forall (keyed Page.edge) src) by apply page_keyed.
    apply (ties_unique Page.edge).
    + by rewrite Hperm.
    + by apply sort_keyed.
    + done.
    + by apply sort_descending.
    + intros e. rewrite (Hties e). symmetry. by apply sort_ties_in_order.
  - intros out src Hperm Hdesc Hties. unfold Dashboard.bettingOpps. fold src.
    assert (Ksrc : Forall (keyed Dashboard.edge) src) by apply dashboard_keyed.
    apply (ties_unique Dashboard.edge).
    + by rewrite Hperm.
    + by apply sort_keyed.
    + done.
    + by apply sort_descending.
    + intros e. rewrite (Hties e). symmetry. by apply sort_ties_in_order.
Qed.

(** For the sample record alone, the list of its opportunity is the
    output. *)
Lemma X6_sorted_output_unique_witness :
  [Page.toOpportunity sample] = Page.processPredictions [sample].
Proof.
  apply (X6_sorted_output_unique [sample] Dashboard.Themed (of_Z 2)).
  - by vm_compute.
  - repeat constructor.
  - intros e. by vm_compute.
Defined.

(** X7: at the threshold 2.0 the dashboards show what the page shows from
    an edge of 2 up: the same opportunities in the same order, each with
    the same recommendation, edge, Vegas line and band.  A record with a
    line whose Edge cell is missing, empty or not a number, which the page
    drops and the dashboards keep with the edge 0, is below the threshold. *)
Theorem X7_dashboard_agrees_with_page (v : Dashboard.variant)
    (predictions : list SheetRow) :
  Shown.of_dashboard <$> Dashboard.bettingOpps v Dashboard.minEdge_default predictions
  = Shown.of_page
      <$> filter (λ opp, ge (Page.edge opp) (of_Z 2)) (Page.processPredictions predictions).
Proof.
  set (cmp := λ a b : Shown.t, sub (Shown.edge b) (Shown.edge a)).
  rewrite processPredictions_unfold. unfold Dashboard.bettingOpps, Dashboard.minEdge_default.
  rewrite (sort_filter Page.edge) by apply page_keyed.
  rewrite (sort_fmap Shown.of_dashboard Dashboard.by_edge_desc cmp) by done.
  rewrite (sort_fmap Shown.of_page Page.by_edge_desc cmp) by done.
  f_equal. rewrite dashboard_filter, filter_fmap.
  cbn [Page.toOpportunity Page.edge]. rewrite !list_filter_filter.
  rewrite (filter_ext_elem
    (λ p, ge (parse_field p "Edge") (of_Z 2) ∧ Page.valid_pred p)
    (λ p, ge (parse_field p "Edge") (of_Z 2) ∧ has_line p)).
  - rewrite <- !list_fmap_compose.
    apply fmap_filter_ext. intros p [Hp _]. apply Is_true_true in Hp.
    by apply shown_agree.
  - intros p _. split; intros [Hge Hp]; (split; [done|]);
      pose proof Hge as Hge'; apply Is_true_true in Hge';
      by rewrite (valid_iff_has_line p Hge') in *.
Qed.

(** X8: raising the minimum edge of the slider only removes opportunities:
    the list at a higher threshold is the list at a lower threshold without
    the opportunities below the higher one, with the recommendations and
    the order unchanged. *)
Theorem X8_slider_monotone (v : Dashboard.variant) (lower higher : number)
    (predictions : list SheetRow) :
  le lower higher = true →
  Dashboard.bettingOpps v higher predictions
  = filter (λ bet, ge (Dashboard.edge bet) higher)
      (Dashboard.bettingOpps v lower predictions).
Proof.
  intros Hle. unfold Dashboard.bettingOpps.
  rewrite (sort_filter Dashboard.edge) by apply dashboard_keyed.
  f_equal. rewrite list_filter_filter_l.
  - rewrite !filter_fmap. cbn [Dashboard.toOpportunity Dashboard.edge].
    apply fmap_filter_ext. intros p Hp. apply Is_true_true in Hp.
    unfold Dashboard.toOpportunity, Dashboard.recommend.
    assert (Hl : ge (parse_field p "Edge") lower = true) by exact (le_trans _ _ _ Hle Hp).
    by rewrite Hp, Hl.
  - intros bet Hbet. apply Is_true_true. apply Is_true_true in Hbet.
    exact (le_trans _ _ _ Hle Hbet).
Qed.

(** Between the thresholds 2 and 5 the sample record, of edge 4, is
    removed. *)
Lemma X8_slider_monotone_witness :
  le (of_Z 2) (of_Z 5) = true
  ∧ Dashboard.bettingOpps Dashboard.Themed (of_Z 5) [sample]
    = filter (λ bet, ge (Dashboard.edge bet) (of_Z 5))
        (Dashboard.bettingOpps Dashboard.Themed (of_Z 2) [sample]).
Proof.
  split; [reflexivity|]. by apply (X8_slider_monotone Dashboard.Themed (of_Z 2) (of_Z 5)).
Defined.

(** X9: the games of the sections by band, taken together, are the games
    of the schedule: the two views of the tabbed dashboard show the same
    games, each once, with the same record, edge, band, emoji and
    recommendation; only the order differs. *)
Theorem X9_bands_show_the_schedule (predictions : list SheetRow) :
  Tabbed.shown_of_game <$> concat (snd <$> Tabbed.bandSections predictions)
  ≡ₚ Tabbed.shown_of_card <$> Tabbed.schedule predictions.
Proof.
  unfold Tabbed.bandSections. rewrite sections_concat.
  rewrite (concat_sorted_perm (λ b, default [] (Tabbed.bandGroups predictions !! b))).
  set (lined := filter (λ p, has_line p) predictions).
  set (low := filter (λ p, lt (parse_field p "Edge") Tabbed.minEdge) lined).
  set (all := (Tabbed.ofOpportunity <$> Tabbed.bettingOpps predictions)
              ++ (Tabbed.lowEdgeGame <$> low)).
  rewrite (list_fmap_ext _ (λ b, filter (λ g, Tabbed.edgeBand g = b) all) Tabbed.bandOrder)
    by (intros _ b _; apply bandGroups_lookup).
  rewrite (groups_partition Tabbed.edgeBand all Tabbed.bandOrder).
  - unfold all, Tabbed.bettingOpps, Dashboard.bettingOpps. fold lined.
    rewrite (sort_perm Dashboard.edge), dashboard_filter.
    rewrite fmap_app, <- !list_fmap_compose.
    rewrite (fmap_filter_ext _ (Tabbed.shown_of_card ∘ Tabbed.scheduleCard)
               (λ p, ge (parse_field p "Edge") Tabbed.minEdge) lined).
    + unfold low.
      rewrite (fmap_filter_ext _ (Tabbed.shown_of_card ∘ Tabbed.scheduleCard)
                 (λ p, lt (parse_field p "Edge") Tabbed.minEdge) lined).
      * rewrite (list_filter_iff (λ p, lt (parse_field p "Edge") Tabbed.minEdge)
                   (λ p, ¬ ge (parse_field p "Edge") Tabbed.minEdge)).
        -- rewrite <- fmap_app, filter_app_complement.
           unfold Tabbed.schedule. by rewrite <- list_fmap_compose.
        -- intros p. unfold Tabbed.minEdge.
           rewrite lt_of_Z by apply parse_field_not_nan.
           apply negb_True.
      * intros p Hp. apply Is_true_true in Hp. by apply card_of_low.
    + intros p Hp. apply Is_true_true in Hp. by apply card_of_opportunity.
  - apply (bool_decide_unpack _). by vm_compute.
  - apply Forall_forall. intros g Hg. unfold all in Hg.
    apply elem_of_app in Hg as [Hg|Hg]; apply list_elem_of_fmap in Hg as (x & -> & Hx).
    + destruct (game_of_opportunity _ _ Hx) as (p & _ & _ & _ & ->).
      cbn [Tabbed.ofOpportunity Tabbed.edgeBand Dashboard.toOpportunity Dashboard.edgeBand].
      rewrite (proj1 (classify_tabbed _)). apply edgeBandOf_bands.
    + apply edgeBandOf_bands.
Qed.





(** X12: the games of the sections by band, read from the section [12+]
    down to the section [0-2], are all the games (the opportunities, then
    the predictions below the threshold) sorted by edge in descending
    order, games of equal edge in that order: grouping by band and sorting
    each group is sorting the whole. *)
Theorem X12_bands_in_edge_order (predictions : list SheetRow) :
  let games :=
    (Tabbed.ofOpportunity <$> Tabbed.bettingOpps predictions)
    ++ (Tabbed.lowEdgeGame
          <$> filter (λ p, lt (parse_field p "Edge") Tabbed.minEdge)
                (filter (λ p, has_line p) predictions)) in
  concat (snd <$> Tabbed.bandSections predictions) = sort Tabbed.by_edge_desc games
  ∧ descending Tabbed.edge (concat (snd <$> Tabbed.bandSections predictions)).
Proof.
  intros games.
  assert (Hkeyed : Forall (keyed Tabbed.edge) games).
  { apply Forall_forall. intros g Hg. by apply games_keyed_band in Hg as [? _]. }
  assert (Heq : concat (snd <$> Tabbed.bandSections predictions)
                = sort Tabbed.by_edge_desc games).
  { unfold Tabbed.bandSections. rewrite sections_concat.
    rewrite (list_fmap_ext _
               (λ b, filter (λ g, Tabbed.edgeBand g = b) (sort Tabbed.by_edge_desc games))
               Tabbed.bandOrder).
    - unfold Tabbed.bandOrder. cbn [fmap list_fmap concat]. rewrite app_nil_r.
      apply (bands_split Tabbed.edge Tabbed.edgeBand).
      + by apply (sort_descending Tabbed.edge).
      + intros g Hg. apply (proj1 (elem_of_sort Tabbed.edge g games)) in Hg.
        by apply games_keyed_band in Hg as [_ ?].
    - intros _ b _. cbv beta. rewrite bandGroups_lookup. fold games.
      symmetry. by apply (sort_filter Tabbed.edge). }
  split; [exact Heq|]. rewrite Heq. by apply (sort_descending Tabbed.edge).
Qed.

(** X13: a range of [n] rows with its header in row [h] gives [n - h - 1]
    records (none when the range ends with the header or before), one for
    each later row; the rows before the header are ignored, and every
    record, of a short row as of a long one, has the headers as its keys,
    the header [__proto__] apart.  The header is the first row of the
    predictions and the fourth of the cover analysis. *)
Theorem X13_records_of_a_range (data : list (list string)) :
  length (Route.predictions data) = (length data - 1)%nat
  ∧ length (Route.coverAnalysis data) = (length data - 4)%nat
  ∧ Route.coverAnalysis data = Route.predictions (drop 3 data)
  ∧ (∀ (rec : SheetRow) (k : string),
       rec ∈ Route.predictions data →
       is_Some (rec !! k) ↔ k ∈ default [] (data !! 0%nat) ∧ k ≠ "__proto__")
  ∧ (∀ (rec : SheetRow) (k : string),
       rec ∈ Route.coverAnalysis data →
       is_Some (rec !! k) ↔ k ∈ default [] (data !! 3%nat) ∧ k ≠ "__proto__").
Proof.
  unfold Route.predictions, Route.coverAnalysis. rewrite !structured_eq.
  split; [|split; [|split; [|split]]].
  - by rewrite length_fmap, length_drop.
  - by rewrite length_fmap, length_drop.
  - rewrite drop_drop, lookup_drop. done.
  - intros rec k Hrec. apply list_elem_of_fmap in Hrec as (row & -> & _).
    apply toRecord_keys.
  - intros rec k Hrec. apply list_elem_of_fmap in Hrec as (row & -> & _).
    apply toRecord_keys.
Qed.

(** The record of the row under the header "Line" has the key "Line". *)
Lemma X13_records_of_a_range_witness :
  Route.toRecord ["Line"] ["3"] ∈ Route.predictions [["Line"]; ["3"]]
  ∧ is_Some (Route.toRecord ["Line"] ["3"] !! "Line").
Proof.
  assert (Hin : Route.toRecord ["Line"] ["3"] ∈ Route.predictions [["Line"]; ["3"]])
    by (vm_compute; left).
  split; [exact Hin|].
  destruct (X13_records_of_a_range [["Line"]; ["3"]]) as (_ & _ & _ & Hkeys & _).
  apply (Hkeys _ "Line" Hin). split; [|discriminate].
  apply list_elem_of_In. simpl. tauto.
Defined.

(** X14: the wins and the losses of the performance are the rows after the
    fourth of the cover analysis range whose cell under the last header
    "Result" is exactly "WIN" or "LOSS", and the total is their sum; a range
    without a header "Result" gives no bets and a win rate of 0. *)
Theorem X14_performance_of_the_range (coverData : list (list string))
    (currentOpps : nat) :
  let headers := default [] (coverData !! 3%nat) in
  let perf := Page.calculatePerformance (Route.coverAnalysis coverData) currentOpps in
  (∀ i : nat,
     last_index headers i "Result" →
     Page.wins perf
       = length (filter (λ row : list string, row !! i = Some "WIN") (drop 4 coverData))
     ∧ Page.losses perf
       = length (filter (λ row : list string, row !! i = Some "LOSS") (drop 4 coverData))
     ∧ Page.totalBets perf = (Page.wins perf + Page.losses perf)%nat)
  ∧ ("Result" ∉ headers → Page.totalBets perf = 0%nat ∧ Page.winRate perf = zero).
Proof.
  intros headers perf. unfold perf, Route.coverAnalysis.
  rewrite structured_eq, page_performance. fold headers. cbn [Nat.add].
  cbn [Page.wins Page.losses Page.totalBets Page.winRate]. split.
  - intros i Hi. by rewrite !(count_result_rows headers _ i) by done.
  - intros Hk. by rewrite !count_result_none by done.
Qed.

(** In a range with the header "Result" in the first column of its fourth
    row, the row "WIN" after it is a win. *)
Lemma X14_performance_of_the_range_witness :
  last_index ["Result"] 0 "Result"
  ∧ Page.wins
      (Page.calculatePerformance
         (Route.coverAnalysis [[]; []; []; ["Result"]; ["WIN"]; ["LOSS"]; ["PUSH"]]) 0)
    = 1%nat.
Proof.
  assert (Hi : last_index ["Result"] 0 "Result").
  { split; [done|]. intros j Hj. destruct j; [lia|done]. }
  split; [exact Hi|].
  exact (proj1 (proj1 (X14_performance_of_the_range
                         [[]; []; []; ["Result"]; ["WIN"]; ["LOSS"]; ["PUSH"]] 0) 0%nat Hi)).
Defined.

(** X15: a predictions range whose header row has no "Line" or no "Edge"
    column gives no opportunity, on the page and on the dashboards at the
    threshold 2.0, whatever its rows hold. *)
Theorem X15_columns_needed (predictionsData : list (list string))
    (v : Dashboard.variant) :
  let headers := default [] (predictionsData !! 0%nat) in
  "Line" ∉ headers ∨ "Edge" ∉ headers →
  Page.processPredictions (Route.predictions predictionsData) = []
  ∧ Dashboard.bettingOpps v Dashboard.minEdge_default (Route.predictions predictionsData) = [].
Proof.
  intros headers Hmiss. unfold Route.predictions.
  rewrite structured_eq, processPredictions_unfold. fold headers.
  unfold Dashboard.bettingOpps. rewrite dashboard_filter, list_filter_filter.
  rewrite !filter_none; [done| |].
  - apply Forall_forall. intros rec Hrec. apply list_elem_of_fmap in Hrec as (row & -> & _).
    intros [Hge Hl]. destruct Hmiss as [Hk|Hk].
    + unfold has_line in Hl. by rewrite (toRecord_missing headers row "Line" Hk) in Hl.
    + unfold parse_field in Hge. rewrite (toRecord_missing headers row "Edge" Hk) in Hge.
      by vm_compute in Hge.
  - apply Forall_forall. intros rec Hrec. apply list_elem_of_fmap in Hrec as (row & -> & _).
    unfold Page.valid_pred, has_line. destruct Hmiss as [Hk|Hk].
    + rewrite (toRecord_missing headers row "Line" Hk). cbn [truthy_str andb]. tauto.
    + rewrite (toRecord_missing headers row "Edge" Hk). cbn [truthy_str].
      rewrite andb_false_r. cbn [andb]. tauto.
Qed.

(** A range whose only column is "Edge" gives no opportunity. *)
Lemma X15_columns_needed_witness :
  Page.processPredictions (Route.predictions [["Edge"]; ["4"]]) = [].
Proof.
  apply (X15_columns_needed [["Edge"]; ["4"]] Dashboard.Themed). left.
  apply (bool_decide_unpack _). by vm_compute.
Defined.

(** X16: in the private key taken from the environment no backslash
    followed by [n] is left; a key without such a pair is taken as it is,
    so that unescaping twice is unescaping once; and the key never gets
    longer. *)
Theorem X16_private_key (key : string) :
  Credentials.escaped (Credentials.unescape key) = false
  ∧ (Credentials.escaped key = false → Credentials.unescape key = key)
  ∧ Credentials.unescape (Credentials.unescape key) = Credentials.unescape key
  ∧ (String.length (Credentials.unescape key) ≤ String.length key)%nat.
Proof.
  destruct (unescape_facts key) as [(H1 & H2 & H3) _].
  repeat split; try done.
  by apply (proj1 (unescape_facts (Credentials.unescape key))).
Qed.

(** X17: the performance depends on the records with the result "WIN" or
    "LOSS" only, and not on their order: two lists of outcome records whose
    decided records are the same up to order give the same totals, wins,
    losses and win rate, on the page and on the dashboards. *)
Theorem X17_performance_of_decided (coverAnalysis coverAnalysis' : list SheetRow)
    (currentOpps : nat) :
  filter (λ r : SheetRow, r !! "Result" = Some "WIN" ∨ r !! "Result" = Some "LOSS")
    coverAnalysis
  ≡ₚ filter (λ r : SheetRow, r !! "Result" = Some "WIN" ∨ r !! "Result" = Some "LOSS")
       coverAnalysis' →
  Page.calculatePerformance coverAnalysis currentOpps
  = Page.calculatePerformance coverAnalysis' currentOpps
  ∧ Dashboard.performance coverAnalysis = Dashboard.performance coverAnalysis'.
Proof.
  intros Hperm.
  assert (Hcount : ∀ lit, lit = "WIN" ∨ lit = "LOSS" →
            count_result lit coverAnalysis = count_result lit coverAnalysis').
  { intros lit Hlit. unfold count_result.
    rewrite <- (list_filter_filter_l (λ r : SheetRow, r !! "Result" = Some lit)
                  (λ r : SheetRow, r !! "Result" = Some "WIN" ∨ r !! "Result" = Some "LOSS")
                  coverAnalysis) by (intros r ->; destruct Hlit as [-> | ->]; tauto).
    rewrite <- (list_filter_filter_l (λ r : SheetRow, r !! "Result" = Some lit)
                  (λ r : SheetRow, r !! "Result" = Some "WIN" ∨ r !! "Result" = Some "LOSS")
                  coverAnalysis') by (intros r ->; destruct Hlit as [-> | ->]; tauto).
    by rewrite Hperm. }
  rewrite !page_performance, !dashboard_performance.
  by rewrite (Hcount "WIN"), (Hcount "LOSS") by auto.
Qed.

(** A push among the records, and the order of the others, change
    nothing. *)
Lemma X17_performance_of_decided_witness :
  Page.calculatePerformance [result "WIN"; result "PUSH"; result "LOSS"] 0
  = Page.calculatePerformance [result "LOSS"; result "WIN"] 0.
Proof.
  apply (X17_performance_of_decided [result "WIN"; result "PUSH"; result "LOSS"]
           [result "LOSS"; result "WIN"] 0).
  vm_compute. apply perm_swap.
Defined.

(** X18: after any sequence of clicks on the headers of the sections, a
    section is expanded exactly when its state at the start and the parity
    of the clicks on its own header say so: a click toggles the section of
    its band and no other, and two clicks on a header leave every section
    as it was. *)
Theorem X18_toggle_bands (prev : gmap string bool) (clicks : list string) (band : string) :
  PageView.isExpanded (foldl (λ state b, PageView.toggleBand b state) prev clicks) band
  = xorb (PageView.isExpanded prev band)
         (Nat.odd (length (filter (λ b, b = band) clicks))).
Proof.
  revert prev. induction clicks as [|b clicks IH]; intros prev.
  { simpl. by rewrite xorb_false_r. }
  cbn [foldl]. rewrite IH, isExpanded_toggle, filter_cons.
  destruct (decide (b = band)) as [_|_]; [|done].
  cbn [length]. rewrite Nat.odd_succ, <- Nat.negb_odd.
  by destruct (PageView.isExpanded prev band), (Nat.odd _).
Qed.

(** X19: the card of an opportunity of the themed dashboard has the yellow
    border exactly when its edge is below 5; while the slider is at 2 or
    above, no card is of the band [0-2], and the yellow border is the
    border of the band [2-5] alone. *)
Theorem X19_card_colours (minEdge : number) (predictions : list SheetRow)
    (bet : Dashboard.Opportunity) (neon : bool) :
  bet ∈ Dashboard.bettingOpps Dashboard.Themed minEdge predictions →
  let border := fst (Themed.cardColors neon (Dashboard.edgeBand bet)) in
  (border = "border-yellow-500" ↔ lt (Dashboard.edge bet) (of_Z 5) = true)
  ∧ (le (of_Z 2) minEdge = true →
     Dashboard.edgeBand bet ≠ "0-2"
     ∧ (border = "border-yellow-500" ↔ Dashboard.edgeBand bet = "2-5")).
Proof.
  intros Hbet. cbv zeta. unfold Dashboard.bettingOpps in Hbet.
  apply elem_of_sort, list_elem_of_filter in Hbet as [Hge Hbet].
  apply list_elem_of_fmap in Hbet as (p & -> & _). apply Is_true_true in Hge.
  revert Hge. cbn [Dashboard.toOpportunity Dashboard.edgeBand Dashboard.edge].
  intros Hge. split; [apply border_yellow|].
  intros Hle. rewrite border_yellow.
  assert (H2 : lt (parse_field p "Edge") (of_Z 2) = false).
  { rewrite lt_of_Z by apply parse_field_not_nan. apply negb_false_iff.
    exact (le_trans _ _ _ Hle Hge). }
  unfold Dashboard.classify. rewrite H2.
  destruct (lt _ (of_Z 5)); [done|].
  repeat (destruct (lt _ _)); repeat split; discriminate.
Qed.

(** At the default position of the slider, the card of the sample record,
    of edge 4, has the yellow border. *)
Lemma X19_card_colours_witness :
  Dashboard.toOpportunity Dashboard.Themed (of_Z 2) sample
    ∈ Dashboard.bettingOpps Dashboard.Themed (of_Z 2) [sample]
  ∧ fst (Themed.cardColors false
           (Dashboard.edgeBand (Dashboard.toOpportunity Dashboard.Themed (of_Z 2) sample)))
    = "border-yellow-500".
Proof.
  assert (Hin : Dashboard.toOpportunity Dashboard.Themed (of_Z 2) sample
                  ∈ Dashboard.bettingOpps Dashboard.Themed (of_Z 2) [sample])
    by (vm_compute; left).
  split; [exact Hin|].
  apply (proj1 (X19_card_colours (of_Z 2) [sample] _ false Hin)). reflexivity.
Defined.
